(** * COSC264 file server: the wire protocol of [client.py] and [server.py]

    A shallow embedding of the two programs.  Python values are modelled as
    follows:
    - [bytes]/[bytearray] are [list byte];
    - [int] is [N] (every integer the programs handle is a length or a field
      value, hence non-negative), with the [OverflowError] of [int.to_bytes]
      made explicit;
    - [str] is a list of Unicode code points;
    - [exit(1)] and uncaught exceptions are outcomes of a small state and
      error monad whose state holds the connected socket, the file system and
      the trace of everything the process did;
    - a file opened for writing is buffered: both [file.write] and
      [file.close] raise when the storage refuses the bytes, and the file is
      then left with the bytes that did reach it. *)

From Stdlib Require Import NArith ZArith List Lia.
From Stdlib Require Import Strings.Byte.
From stdpp Require Import base option list gmap.
From Equations Require Import Equations.
From Equations.Prop Require Import Logic.

Local Open Scope N_scope.

(** ** Python values *)

Module Py.

(** A [bytes] object. *)
Abbreviation bytes := (list byte).

(** A [str]: the sequence of its code points. *)
Abbreviation str := (list N).

(** The exceptions the two programs can meet. *)
Inductive exn :=
| IndexError
| OverflowError
| UnicodeEncodeError
| ValueError
| OSError
| SocketTimeout.

(** What evaluating a piece of Python ends in: a value, [exit(code)]
    ([SystemExit] travelling up to the interpreter), or an exception nothing
    has caught yet. *)
Inductive outcome (A : Type) :=
| Ret (a : A)
| Exit (code : Z)
| Raise (e : exn).
Arguments Ret {A} a.
Arguments Exit {A} code.
Arguments Raise {A} e.

(** Sequencing of computations that may raise. *)
Definition and_then {A B} (r : outcome A) (k : A -> outcome B) : outcome B :=
  match r with
  | Ret a => k a
  | Exit code => Exit code
  | Raise e => Raise e
  end.

(** [len(b)] *)
Definition len {A} (l : list A) : N := N.of_nat (length l).

(** [l[lo:hi]] for [0 <= lo <= hi]. *)
Definition slice {A} (lo hi : nat) (l : list A) : list A :=
  take (hi - lo) (drop lo l).

(** The byte of value [n mod 256]. *)
Definition byte_of_N (n : N) : byte :=
  match Byte.of_N (n mod 256) with
  | Some b => b
  | None => x00
  end.

(** [int.from_bytes(bs, byteorder='big')] *)
Definition from_bytes (bs : bytes) : N :=
  fold_left (fun acc b => acc * 256 + Byte.to_N b) bs 0.

(** The [width] big-endian base-256 digits of [n]. *)
Fixpoint be_digits (width : nat) (n : N) : bytes :=
  match width with
  | O => []
  | S w => byte_of_N (n / 256 ^ N.of_nat w) :: be_digits w n
  end.

(** [n.to_bytes(width, byteorder='big')]: raises [OverflowError] when [n]
    does not fit. *)
Definition to_bytes (width : nat) (n : N) : outcome bytes :=
  if n <? 256 ^ N.of_nat width then Ret (be_digits width n)
  else Raise OverflowError.

(** [chr(b)] for a byte [b]. *)
Definition chr (b : byte) : N := Byte.to_N b.

(** The UTF-8 encoding of one code point; surrogates and values past
    U+10FFFF have none. *)
Definition utf8_char (c : N) : option bytes :=
  if c <? 0x80 then Some [byte_of_N c]
  else if c <? 0x800 then
    Some [byte_of_N (0xC0 + c / 64); byte_of_N (0x80 + c mod 64)]
  else if c <? 0x10000 then
    if (0xD800 <=? c) && (c <=? 0xDFFF) then None
    else Some [byte_of_N (0xE0 + c / 4096);
               byte_of_N (0x80 + c / 64 mod 64);
               byte_of_N (0x80 + c mod 64)]
  else if c <? 0x110000 then
    Some [byte_of_N (0xF0 + c / 262144);
          byte_of_N (0x80 + c / 4096 mod 64);
          byte_of_N (0x80 + c / 64 mod 64);
          byte_of_N (0x80 + c mod 64)]
  else None.

(** [s.encode()] (UTF-8, strict). *)
Fixpoint encode (s : str) : outcome bytes :=
  match s with
  | [] => Ret []
  | c :: s' =>
      match utf8_char c with
      | Some bs => and_then (encode s') (fun rest => Ret (bs ++ rest))
      | None => Raise UnicodeEncodeError
      end
  end.

End Py.
Import Py.

(** ** Protocol constants (the same in both programs) *)

Definition MIN_PORT : Z := 1024.
Definition MAX_PORT : Z := 64000.
Definition MAGICNO : N := 0x497E.
Definition REQUEST_TYPE : N := 1.
Definition RESPONSE_TYPE : N := 2.
Definition MIN_FILENAME_LEN : N := 1.
Definition MAX_FILENAME_LEN : N := 1024.
Definition REQUEST_HEADER_LEN : N := 5.
Definition RESPONSE_HEADER_LEN : N := 8.
Definition DATA_BLOCK_SIZE : N := 4096.

(** ** The world a process runs in *)

(** What the peer's side of a connected socket does at one [recv] call. *)
Inductive recv_event :=
| Data (bs : bytes)      (* these bytes have arrived *)
| Timeout                (* nothing arrives within the socket's timeout *)
| Failure.               (* the call fails with another error *)

(** What [recv] gives back to its caller. *)
Inductive recv_result :=
| Received (bs : bytes)
| TimedOut               (* [socket.timeout] *)
| RecvFailed.            (* any other exception *)

(** A connection as the server's [accept] hands it over. *)
Record connection := Connection {
  conn_in : list recv_event;
  conn_send_ok : bool
}.

(** Every line the two programs print, with the numbers they interpolate. *)
Inductive message :=
| Blank                                  (* print() *)
| Usage
| InvalidAddress                         (* "Invalid IP address or domain name." *)
| PortOutOfRange                         (* "Port must be between ..." *)
| FileAlreadyExists                      (* "File already exists and can be opened locally." *)
| SocketCreationFailed                   (* "Failed to create socket." *)
| BindFailed                             (* "Failed binding socket to port ..." *)
| ListenFailed                           (* "Failed to set socket to listen ..." *)
| ConnectFailed                          (* "Couldn't connect to the server." *)
| AcceptFailed                           (* "Failed to establish connection." *)
| ConnectionInfo                         (* "Time: ... IP: ... Port: ..." *)
| SocketTimedOut                         (* "Socket timed out." *)
| ReadFailed                             (* "Failed to read data from the socket. ..." *)
| NoRequestHeader                        (* "Did not receive request header." *)
| NoResponseHeader                       (* "Did not receive response header." *)
| BadMagicNo (magic_no : N)              (* "Received MagicNo was ... Must be ..." *)
| BadType (type : N)                     (* "Received ... in type field. Must be ..." *)
| BadStatusCode (status : N)             (* "Received StatusCode was ... Must be 0 or 1." *)
| BadFilenameLen (filename_len : N)      (* "Received filename length was ..." *)
| TooManyFilenameBytes (received : N)    (* "Received ... or more filename bytes." *)
| FilenameBytes (received : N)           (* "Received ... filename bytes." *)
| ExpectedBytes (expected : N)           (* "Expected ... bytes." *)
| FileNotOpened                          (* "Requested file couldn't be opened." *)
| FileDoesNotExist                       (* "Requested file does not exist." *)
| SendFailed                             (* "Failed to send file." *)
| SentToClient (filename : str) (n : Z)  (* "... sent to client." "Transferred ... bytes." *)
| NotOnServer                            (* "File couldn't be found or opened on the server." *)
| CreateFailed                           (* "Failed to create the file." *)
| WriteFailed                            (* "Failed to write data to the file." *)
| Downloading                            (* "Downloading..." *)
| ByteCountMismatch (received expected : N)
                                         (* "Received ... bytes." "Expected ... bytes." *)
| RemoveFailed                           (* "File couldn't be removed." *)
| Downloaded (filename : str) (size : N). (* "Successfully downloaded ..." and the timing lines *)

(** What a process does that the outside can see, in order. *)
Inductive event :=
| Print (m : message)
| Connect
| Accept
| Recv (bufsize : N)
| SendAll (data : bytes)
| CloseSocket
| OpenWrite (filename : str)
| Write (data : bytes)
| CloseFile
| Remove (filename : str).

(** The part of the world the programs cannot change: what the operating
    system and the Python built-ins answer. *)
Record env := Env {
  str_isdigit : str -> bool;             (* port.isdigit() *)
  str_to_int : str -> option Z;          (* int(port); None is ValueError *)
  getaddrinfo : str -> option str;       (* the first address, None when it raises *)
  socket_ok : bool;                      (* socket.socket(...) succeeds *)
  hostname_ok : bool;                    (* gethostbyname(gethostname()) succeeds *)
  bind_ok : bool;
  listen_ok : bool;
  connect_ok : bool;
  readable : str -> bool;                (* an existing file can be opened for reading *)
  creatable : str -> bool;               (* open(name, "wb") succeeds *)
  removable : str -> bool                (* os.remove(name) succeeds on an existing file *)
}.

(** What the storage does at one [file.write] or [file.close] call.  Python
    buffers the writes of a file opened with ["wb"], so the bytes reach the
    storage inside a later [write] or inside [close]; when that fails the
    call raises [OSError] and the file holds only the first [kept] bytes of
    what was written to it. *)
Inductive fault :=
| NoFault
| Fault (kept : nat).

(** The part that changes as the process runs. *)
Record state := State {
  sock_in : list recv_event;             (* what is still to come on the connected socket *)
  sock_send_ok : bool;                   (* whether sendall on it succeeds *)
  files : gmap str bytes;                (* the regular files and their contents *)
  write_faults : list fault;             (* one per file.write or file.close call to come;
                                            no fault once the list is used up *)
  trace : list event
}.

(** ** The monad: state, [exit] and exceptions *)

Definition M (A : Type) : Type := state -> outcome A * state.

Definition ret {A} (a : A) : M A := fun st => (Ret a, st).

Definition bind {A B} (c : M A) (k : A -> M B) : M B :=
  fun st =>
    match c st with
    | (Ret a, st') => k a st'
    | (Exit code, st') => (Exit code, st')
    | (Raise e, st') => (Raise e, st')
    end.

Notation "x <- c ;; k" := (bind c (fun x => k))
  (at level 100, c at next level, right associativity, only parsing).
Notation "c ;; k" := (bind c (fun _ => k))
  (at level 100, k at level 200, right associativity, only parsing).

(** [exit(code)] *)
Definition exit {A} (code : Z) : M A := fun st => (Exit code, st).

Definition raise {A} (e : exn) : M A := fun st => (Raise e, st).

(** [if b: c] *)
Definition when (b : bool) (c : M unit) : M unit := if b then c else ret tt.

(** A [with] block over a socket: the socket is closed however the body
    ends. *)
Definition with_socket {A} (body : M A) : M A :=
  fun st =>
    let '(r, st') := body st in
    (r, State (sock_in st') (sock_send_ok st') (files st') (write_faults st')
              (trace st' ++ [CloseSocket])).

Definition emit (e : event) : M unit :=
  fun st => (Ret tt, State (sock_in st) (sock_send_ok st) (files st)
                           (write_faults st) (trace st ++ [e])).

Definition print (m : message) : M unit := emit (Print m).

(** [b[i]] on a [bytes]: the value of the byte, or [IndexError]. *)
Definition index (b : bytes) (i : nat) : M N :=
  match b !! i with
  | Some x => ret (Byte.to_N x)
  | None => raise IndexError
  end.

(** A pure computation that may raise, run inside [M]. *)
Definition lift {A} (r : outcome A) : M A := fun st => (r, st).

(** ** Sockets *)

(** [soc.recv(bufsize)]: at most [bufsize] of the bytes that have arrived;
    what is left over stays queued.  The empty result is the closed stream. *)
Definition sock_recv (bufsize : N) : M recv_result :=
  fun st =>
    let st1 := State (sock_in st) (sock_send_ok st) (files st)
                     (write_faults st) (trace st ++ [Recv bufsize]) in
    let queue rest := State rest (sock_send_ok st) (files st)
                            (write_faults st) (trace st1) in
    match sock_in st with
    | [] => (Ret (Received []), st1)
    | Timeout :: rest => (Ret TimedOut, queue rest)
    | Failure :: rest => (Ret RecvFailed, queue rest)
    | Data bs :: rest =>
        if len bs <=? bufsize then (Ret (Received bs), queue rest)
        else (Ret (Received (take (N.to_nat bufsize) bs)),
              queue (Data (drop (N.to_nat bufsize) bs) :: rest))
    end.

(** [soc.sendall(data)]: [true] when it returns, [false] when it raises. *)
Definition sock_sendall (data : bytes) : M bool :=
  fun st => (Ret (sock_send_ok st),
             State (sock_in st) (sock_send_ok st) (files st)
                   (write_faults st) (trace st ++ [SendAll data])).

(** ** Files *)

Section Files.
Variable E : env.

(** [os.path.isfile(name)] *)
Definition isfile (name : str) : M bool :=
  fun st => (Ret (bool_decide (is_Some (files st !! name))), st).

(** [open(name)] or [open(name, "rb")] followed by [read()]: the contents,
    or [None] when [open] raises. *)
Definition open_read (name : str) : M (option bytes) :=
  fun st =>
    match files st !! name with
    | Some contents =>
        if readable E name then (Ret (Some contents), st) else (Ret None, st)
    | None => (Ret None, st)
    end.

(** [open(name, "wb")]: creates or truncates the file; [false] when it
    raises. *)
Definition open_write (name : str) : M bool :=
  fun st =>
    if creatable E name then
      (Ret true, State (sock_in st) (sock_send_ok st) (<[name := []]> (files st))
                       (write_faults st) (trace st ++ [OpenWrite name]))
    else
      (Ret false, State (sock_in st) (sock_send_ok st) (files st)
                        (write_faults st) (trace st ++ [OpenWrite name])).

(** [file.write(data)] on the file opened as [name]: [false] when it
    raises, the storage having refused bytes. *)
Definition file_write (name : str) (data : bytes) : M bool :=
  fun st =>
    match write_faults st with
    | Fault kept :: faults =>
        (Ret false, State (sock_in st) (sock_send_ok st)
                          (alter (fun old => take kept (old ++ data)) name (files st))
                          faults
                          (trace st ++ [Write data]))
    | _ =>
        (Ret true, State (sock_in st) (sock_send_ok st)
                         (alter (fun old => old ++ data) name (files st))
                         (tail (write_faults st))
                         (trace st ++ [Write data]))
    end.

(** [file.close()] on the file opened as [name]: it flushes what is still
    buffered, and raises [OSError] when that fails. *)
Definition file_close (name : str) : M unit :=
  fun st =>
    match write_faults st with
    | Fault kept :: faults =>
        (Raise OSError, State (sock_in st) (sock_send_ok st)
                              (alter (take kept) name (files st))
                              faults
                              (trace st ++ [CloseFile]))
    | _ =>
        (Ret tt, State (sock_in st) (sock_send_ok st) (files st)
                       (tail (write_faults st))
                       (trace st ++ [CloseFile]))
    end.

(** [os.remove(name)]: [false] when it raises. *)
Definition os_remove (name : str) : M bool :=
  fun st =>
    let removed := bool_decide (is_Some (files st !! name)) && removable E name in
    (Ret removed,
     State (sock_in st) (sock_send_ok st)
           (if removed then delete name (files st) else files st)
           (write_faults st) (trace st ++ [Remove name])).
End Files.

(** ** client.py *)

Module Client.
Section Client.
Variable E : env.

(** [arguemnt_check]: the resolved address, the port and the filename. *)
Definition arguemnt_check (argv : list str) : M (str * Z * str) :=
  when (negb (length argv =? 4)%nat) (print Usage;; exit 1);;
  ip <- match getaddrinfo E (argv !!! 1%nat) with
        | Some ip => ret ip
        | None => print InvalidAddress;; exit 1
        end;;
  let port := argv !!! 2%nat in
  port <- (if str_isdigit E port then
             match str_to_int E port with
             | Some p =>
                 if ((p <? MIN_PORT) || (MAX_PORT <? p))%Z
                 then print PortOutOfRange;; exit 1
                 else ret p
             | None => raise ValueError
             end
           else print PortOutOfRange;; exit 1);;
  let filename := argv !!! 3%nat in
  exists_ <- isfile filename;;
  when exists_
    (opened <- open_read E filename;;
     match opened with
     | None => ret tt
     | Some _ => print FileAlreadyExists;; exit 1
     end);;
  ret (ip, port, filename).

(** [create_socket] *)
Definition create_socket : M unit :=
  if socket_ok E then ret tt else print SocketCreationFailed;; exit 1.

(** [connect_to_server] *)
Definition connect_to_server : M unit :=
  emit Connect;;
  if connect_ok E then ret tt else print ConnectFailed;; exit 1.

(** [construct_request] *)
Definition construct_request (filename : str) : outcome bytes :=
  and_then (to_bytes 2 MAGICNO) (fun magic =>
  let request := magic ++ [byte_of_N REQUEST_TYPE] in
  and_then (encode filename) (fun file_bytes =>
  and_then (to_bytes 2 (len file_bytes)) (fun length_field =>
  Ret (request ++ length_field ++ file_bytes)))).

(** [get_header] *)
Definition get_header : M bytes :=
  r <- sock_recv RESPONSE_HEADER_LEN;;
  match r with
  | Received header => ret header
  | TimedOut => print SocketTimedOut;; exit 1
  | RecvFailed => print ReadFailed;; exit 1
  end.

(** [validate_header] *)
Definition validate_header (header : bytes) : M unit :=
  when (len header =? 0) (print NoResponseHeader;; exit 1);;
  let magic_no := from_bytes (slice 0 2 header) in
  when (negb (magic_no =? MAGICNO)) (print (BadMagicNo magic_no);; exit 1);;
  type <- index header 2;;
  when (negb (type =? RESPONSE_TYPE)) (print (BadType type);; exit 1);;
  status <- index header 3;;
  when (negb ((status =? 0) || (status =? 1)))
    (print (BadStatusCode status);; exit 1).

(** [check_status_code] *)
Definition check_status_code (header : bytes) : M unit :=
  status <- index header 3;;
  when (status =? 0) (print NotOnServer;; exit 1).

(** [receive_data_block]: [None] is Python's [None]. *)
Definition receive_data_block : M (option bytes) :=
  r <- sock_recv DATA_BLOCK_SIZE;;
  match r with
  | Received data_block => ret (Some data_block)
  | TimedOut => print SocketTimedOut;; ret None
  | RecvFailed => print ReadFailed;; ret None
  end.

(** [remove_file] *)
Definition remove_file (file : str) : M unit :=
  removed <- os_remove E file;;
  when (negb removed) (print RemoveFailed).

(** [write_to_file] *)
Definition write_to_file (file : str) (data : bytes) : M unit :=
  written <- file_write file data;;
  when (negb written) (print WriteFailed;; remove_file file;; exit 1).

(** One turn of the [while] loop of [save_file]: the new [total_bytes] and
    whether [len(data_block) > 0], that is whether the loop goes on. *)
Definition save_file_turn (file : str) (total_bytes : N) : M (N * bool) :=
  data_block <- receive_data_block;;
  match data_block with
  | None => file_close file;; remove_file file;; exit 1
  | Some data_block =>
      write_to_file file data_block;;
      ret (total_bytes + len data_block, 0 <? len data_block)
  end.

(** How much the socket still holds: the measure the [while] loop of
    [save_file] goes down on. *)
Fixpoint pending (events : list recv_event) : nat :=
  match events with
  | [] => O
  | Data bs :: rest => S (length bs + pending rest)
  | _ :: rest => S (pending rest)
  end.

(** The [while len(data_block) > 0] loop of [save_file]. *)
Equations? save_file_loop (file : str) (total_bytes : N) (st : state)
  : outcome N * state by wf (pending (sock_in st)) lt :=
save_file_loop file total_bytes st with inspect (save_file_turn file total_bytes st) := {
  | exist _ (Ret (total, true), st') _ => save_file_loop file total st'
  | exist _ (Ret (total, false), st') _ => (Ret total, st')
  | exist _ (Exit code, st') _ => (Exit code, st')
  | exist _ (Raise e, st') _ => (Raise e, st') }.
Proof.
  assert (Hrecv : exists res st1,
             sock_recv DATA_BLOCK_SIZE st = (Ret res, st1) /\
             forall bs, res = Received bs -> (0 <? len bs) = true ->
                        (pending (sock_in st1) < pending (sock_in st))%nat).
  { unfold sock_recv, len.
    destruct (sock_in st) as [|[bs| |] rest]; simpl.
    - eexists _, _; split; [reflexivity|]. intros ? [= <-]; discriminate.
    - destruct (N.of_nat (length bs) <=? DATA_BLOCK_SIZE) eqn:Hfit;
        (eexists _, _; split; [reflexivity|]); intros ? [= <-] Hpos; simpl.
      + lia.
      + apply N.leb_gt in Hfit. rewrite length_drop.
        unfold DATA_BLOCK_SIZE in *. lia.
    - eexists _, _; split; [reflexivity|]. discriminate.
    - eexists _, _; split; [reflexivity|]. discriminate. }
  assert (Hwrite : forall data st1 r st2,
             write_to_file file data st1 = (r, st2) -> sock_in st2 = sock_in st1).
  { intros data st1 r st2.
    unfold write_to_file, file_write, remove_file, os_remove, bind, when,
      print, emit, exit, ret.
    destruct (write_faults st1) as [|[|kept] faults]; simpl;
      repeat (match goal with
              | |- context [if ?c then _ else _] => destruct c
              end; simpl);
      intros [= <- <-]; reflexivity. }
  destruct Hrecv as (res & st1 & Hres & Hlt).
  unfold save_file_turn, receive_data_block, bind in e.
  rewrite Hres in e.
  destruct res as [bs| |]; simpl in e;
    try (unfold file_close in e;
         destruct (write_faults _) as [|[|kept] faults]; simpl in e;
         try discriminate;
         destruct (remove_file file _) as [[| |] ?]; discriminate).
  destruct (write_to_file file bs st1) as [[[]| |] st2] eqn:Hw; try discriminate.
  injection e as <- Hpos <-.
  rewrite (Hwrite _ _ _ _ Hw). apply (Hlt bs); [reflexivity | exact Hpos].
Qed.

(** [save_file] *)
Definition save_file (filename : str) (header : bytes) : M N :=
  opened <- open_write E filename;;
  when (negb opened) (print CreateFailed;; exit 1);;
  let data_length := from_bytes (slice 4 8 header) in
  print Downloading;;
  total_bytes <- save_file_loop filename 0;;
  file_close filename;;
  when (negb (data_length =? total_bytes))
    (print (ByteCountMismatch total_bytes data_length);;
     remove_file filename;; exit 1);;
  ret total_bytes.

(** [print_info]; the elapsed time is not modelled. *)
Definition print_info (filename : str) (total_bytes : N) : M unit :=
  print (Downloaded filename total_bytes).

(** [main] *)
Definition main (argv : list str) : M unit :=
  args <- arguemnt_check argv;;
  let '(server_ip, port, filename) := args in
  create_socket;;
  with_socket
    (connect_to_server;;
     request <- lift (construct_request filename);;
     sent <- sock_sendall request;;
     when (negb sent) (raise OSError);;
     header <- get_header;;
     validate_header header;;
     check_status_code header;;
     total_bytes <- save_file filename header;;
     print_info filename total_bytes).

End Client.
End Client.

(** ** server.py *)

Module Server.
Section Server.
Variable E : env.

(** [arguemnt_check]: the port. *)
Definition arguemnt_check (argv : list str) : M Z :=
  when (negb (length argv =? 2)%nat) (print Usage;; exit 1);;
  let port := argv !!! 1%nat in
  if str_isdigit E port then
    match str_to_int E port with
    | Some p =>
        if ((p <? MIN_PORT) || (MAX_PORT <? p))%Z
        then print PortOutOfRange;; exit 1
        else ret p
    | None => raise ValueError
    end
  else print PortOutOfRange;; exit 1.

(** [create_socket] *)
Definition create_socket : M unit :=
  if socket_ok E then ret tt else print SocketCreationFailed;; exit 1.

(** [bind_socket] *)
Definition bind_socket : M unit :=
  when (negb (hostname_ok E)) (raise OSError);;
  if bind_ok E then ret tt else print BindFailed;; exit 1.

(** [listen_on_socket] *)
Definition listen_on_socket : M unit :=
  if listen_ok E then ret tt else print ListenFailed;; exit 1.

(** [accept_connection], given what [soc.accept()] does this time: [None]
    when it raises.  The result tells whether there is a connection (Python
    returns the connection or [None]); the connection itself becomes the
    connected socket of the state. *)
Definition accept_connection (arrival : option connection) : M bool :=
  emit Accept;;
  match arrival with
  | None => print AcceptFailed;; ret false
  | Some conn =>
      print ConnectionInfo;;
      fun st => (Ret true, State (conn_in conn) (conn_send_ok conn)
                                 (files st) (write_faults st) (trace st))
  end.

(** [get_header] *)
Definition get_header : M bytes :=
  r <- sock_recv REQUEST_HEADER_LEN;;
  match r with
  | Received header => ret header
  | TimedOut => print SocketTimedOut;; exit 1
  | RecvFailed => print ReadFailed;; exit 1
  end.

(** [is_valid_header] *)
Definition is_valid_header (header : bytes) : M bool :=
  if len header =? 0 then print NoRequestHeader;; ret false
  else
    let magic_no := from_bytes (slice 0 2 header) in
    if negb (magic_no =? MAGICNO) then print (BadMagicNo magic_no);; ret false
    else
      type <- index header 2;;
      if negb (type =? REQUEST_TYPE) then print (BadType type);; ret false
      else
        let filename_len := from_bytes (slice 3 5 header) in
        if (filename_len <? MIN_FILENAME_LEN) || (MAX_FILENAME_LEN <? filename_len)
        then print (BadFilenameLen filename_len);; ret false
        else ret true.

(** [get_filename]: [None] is Python's [None]. *)
Definition get_filename (header : bytes) : M (option str) :=
  let filename_len := from_bytes (drop 3 header) in
  r <- sock_recv (filename_len + 1);;
  match r with
  | TimedOut => print SocketTimedOut;; exit 1
  | RecvFailed => print ReadFailed;; exit 1
  | Received filename_bytes =>
      if negb (len filename_bytes =? filename_len) then
        (if filename_len <? len filename_bytes
         then print (TooManyFilenameBytes (len filename_bytes))
         else print (FilenameBytes (len filename_bytes)));;
        print (ExpectedBytes filename_len);;
        ret None
      else ret (Some (map chr filename_bytes))
  end.

(** [get_file_data] *)
Definition get_file_data (filename : str) : M bytes :=
  opened <- open_read E filename;;
  match opened with
  | None =>
      exists_ <- isfile filename;;
      print (if exists_ then FileNotOpened else FileDoesNotExist);;
      ret []
  | Some file_data => ret file_data
  end.

(** [construct_response] *)
Definition construct_response (file_data : bytes) : outcome bytes :=
  and_then (to_bytes 2 MAGICNO) (fun magic =>
  let response := magic ++ [byte_of_N RESPONSE_TYPE] in
  let status_code := if len file_data =? 0 then 0 else 1 in
  let response := response ++ [byte_of_N status_code] in
  and_then (to_bytes 4 (len file_data)) (fun length_field =>
  Ret (response ++ length_field ++ file_data))).

(** [send_response]: [None] is Python's [None]. *)
Definition send_response (response : bytes) : M (option N) :=
  sent <- sock_sendall response;;
  if sent then ret (Some (len response))
  else print SendFailed;; ret None.

(** [print_info] *)
Definition print_info (filename : str) (bytes_sent : Z) : M unit :=
  print (SentToClient filename bytes_sent).

(** The body of [with conn:] in [main]; each [continue] is an early
    [ret tt]. *)
Definition handle_connection : M unit :=
  header <- get_header;;
  valid <- is_valid_header header;;
  if negb valid then ret tt
  else
    filename <- get_filename header;;
    match filename with
    | None => ret tt
    | Some filename =>
        file_data <- get_file_data filename;;
        response <- lift (construct_response file_data);;
        bytes_sent <- send_response response;;
        match bytes_sent with
        | Some n => print_info filename (Z.of_N n - Z.of_N RESPONSE_HEADER_LEN)
        | None => ret tt
        end
    end.

(** The [while True] loop of [main], run against the connections that
    arrive.  When none is left the process sits in [accept]: the result
    [Ret tt] means the server is still up, waiting for the next client. *)
Fixpoint serve (arrivals : list (option connection)) : M unit :=
  print Blank;;
  match arrivals with
  | [] => emit Accept
  | arrival :: later =>
      accepted <- accept_connection arrival;;
      (if accepted then with_socket handle_connection else ret tt);;
      serve later
  end.

(** [main] *)
Definition main (argv : list str) (arrivals : list (option connection)) : M unit :=
  port <- arguemnt_check argv;;
  create_socket;;
  with_socket (bind_socket;; listen_on_socket;; serve arrivals).

End Server.
End Server.

(** * Vocabulary of the statements *)

(** The header [construct_request] sends ahead of a filename of
    [filename_len] bytes. *)
Definition request_header (filename_len : N) : bytes :=
  be_digits 2 MAGICNO ++ [byte_of_N REQUEST_TYPE] ++ be_digits 2 filename_len.

(** The header's MagicNo field is not 0x497E, or it has a Type field and that
    is not [expected]. *)
Definition bad_header (expected : N) (header : bytes) : Prop :=
  from_bytes (slice 0 2 header) <> MAGICNO \/
  exists type, header !! 2%nat = Some type /\ Byte.to_N type <> expected.

(** What the next [recv] finds: bytes that have arrived (none when the peer
    has closed the stream), or nothing because the read times out or fails. *)
Definition arrived (events : list recv_event) : option bytes :=
  match events with
  | [] => Some []
  | Data bs :: _ => Some bs
  | _ => None
  end.

(** Everything the peer sends before it closes the stream, when no read
    times out or fails before that. *)
Fixpoint incoming (events : list recv_event) : option bytes :=
  match events with
  | [] => Some []
  | Data [] :: _ => Some []
  | Data bs :: rest => option_map (app bs) (incoming rest)
  | _ => None
  end.

(** The storage takes every byte: no [file.write] and no [file.close] to
    come raises. *)
Definition no_write_fault (st : state) : Prop :=
  Forall (fun f => f = NoFault) (write_faults st).

(** The server's state when the handling of an accepted connection starts. *)
Definition accepted (conn : connection) (st : state) : state :=
  State (conn_in conn) (conn_send_ok conn) (files st) (write_faults st)
        (trace st ++ [Print Blank; Accept; Print ConnectionInfo]).

(** The client's state once it has connected and sent its request. *)
Definition request_sent (request : bytes) (st : state) : state :=
  State (sock_in st) (sock_send_ok st) (files st) (write_faults st)
        (trace st ++ [Connect; SendAll request]).

(** The failures that stay inside one server connection: a header that
    validation rejects, a filename whose byte count is not the declared one,
    and a response that cannot be sent. *)
Inductive local_failure (conn : connection) (st : state) : Prop :=
| rejected_header header st1 :
    Server.get_header (accepted conn st) = (Ret header, st1) ->
    fst (Server.is_valid_header header st1) = Ret false ->
    local_failure conn st
| filename_mismatch header st1 bs :
    Server.get_header (accepted conn st) = (Ret header, st1) ->
    fst (Server.is_valid_header header st1) = Ret true ->
    arrived (sock_in st1) = Some bs ->
    len bs <> from_bytes (drop 3 header) ->
    local_failure conn st
| send_failure header st1 bs :
    Server.get_header (accepted conn st) = (Ret header, st1) ->
    fst (Server.is_valid_header header st1) = Ret true ->
    arrived (sock_in st1) = Some bs ->
    len bs = from_bytes (drop 3 header) ->
    (forall file_data, files st !! map chr bs = Some file_data ->
                       len file_data < 2 ^ 32) ->
    conn_send_ok conn = false ->
    local_failure conn st.

(** The failures of a read itself: a timeout or an error while the server
    awaits the header or the filename. *)
Inductive read_failure (conn : connection) (st : state) : Prop :=
| header_read_fails ev rest :
    conn_in conn = ev :: rest ->
    ev = Timeout \/ ev = Failure ->
    read_failure conn st
| filename_read_fails header st1 ev rest :
    Server.get_header (accepted conn st) = (Ret header, st1) ->
    fst (Server.is_valid_header header st1) = Ret true ->
    sock_in st1 = ev :: rest ->
    ev = Timeout \/ ev = Failure ->
    read_failure conn st.

(** What the server decodes from the bytes that arrive: the verdict on the
    header, the declared length and the filename. *)
Definition decode_request : M (bool * N * option str) :=
  header <- Server.get_header;;
  valid <- Server.is_valid_header header;;
  filename <- Server.get_filename header;;
  ret (valid, from_bytes (drop 3 header), filename).

(** Running [c] adds events to the trace and removes none. *)
Definition extends {A} (c : M A) : Prop :=
  forall st, exists evs, trace (snd (c st)) = trace st ++ evs.

(** Events of the transfer loop: a block is read, a block is written. *)
Definition transfer_event (ev : event) : Prop :=
  ev = Recv DATA_BLOCK_SIZE \/ exists block, ev = Write block.

(** *** Sample worlds *)

(** A machine on which every system call succeeds. *)
Definition obliging : env :=
  Env (fun _ => true) (fun _ => Some 5000%Z) (fun host => Some host)
      true true true true true (fun _ => true) (fun _ => true) (fun _ => true).

(** The same machine, except that no file opens for reading. *)
Definition unreadable : env :=
  Env (fun _ => true) (fun _ => Some 5000%Z) (fun host => Some host)
      true true true true true (fun _ => false) (fun _ => true) (fun _ => true).

(** The same machine, except that no file can be removed. *)
Definition unremovable : env :=
  Env (fun _ => true) (fun _ => Some 5000%Z) (fun host => Some host)
      true true true true true (fun _ => true) (fun _ => true) (fun _ => false).

(** A process that has done nothing yet, in an empty directory, talking to
    a peer that will deliver [input]. *)
Definition fresh (input : list recv_event) : state := State input true ∅ [] [].

(** A process that has done nothing yet, next to an existing file [f]. *)
Definition beside_f : state := State [] true {[ [102] := [x68; x69] ]} [] [].

(** The command line [client.py h 5000 f]. *)
Definition a_command_line : list str := [[99]; [104]; [53; 48; 48; 48]; [102]].

(** *** Vocabulary of the further properties *)

(** What [get_file_data] hands back for [filename]: the contents of the file
    when it exists and opens, no bytes otherwise. *)
Definition file_served (E : env) (st : state) (filename : str) : bytes :=
  match files st !! filename with
  | Some contents => if readable E filename then contents else []
  | None => []
  end.

(** What [get_file_data] prints on the way. *)
Definition file_diagnostic (E : env) (st : state) (filename : str) : list event :=
  match files st !! filename with
  | Some _ => if readable E filename then [] else [Print FileNotOpened]
  | None => [Print FileDoesNotExist]
  end.

(** A server directory holding one file [f] of 2^32 zero bytes. *)
Definition beside_4GiB : state :=
  State [] true {[ [102] := repeat x00 (N.to_nat (2 ^ 32)) ]} [] [].

(** Running [c] does not change what [view] shows of the state. *)
Definition keeps {A B} (view : state -> B) (c : M A) : Prop :=
  forall st, view (snd (c st)) = view st.

(** A view that looks at the files only. *)
Definition of_files {B} (view : state -> B) : Prop :=
  forall st st', files st' = files st -> view st' = view st.

(** The name made of 65536 letters [a]. *)
Definition overlong_name : str := repeat 97 (N.to_nat 65536).

(** A machine like [obliging] on which connections are refused. *)
Definition unreachable : env :=
  Env (fun _ => true) (fun _ => Some 5000%Z) (fun host => Some host)
      true true true true false (fun _ => true) (fun _ => true) (fun _ => true).

(** * Properties *)

(** ** Integers and bytes *)

Lemma to_N_byte_of_N n : Byte.to_N (byte_of_N n) = n mod 256.
Proof.
  unfold byte_of_N.
  destruct (Byte.of_N (n mod 256)) as [b|] eqn:Hb.
  - apply Byte.to_of_N; exact Hb.
  - apply Byte.of_N_None_iff in Hb.
    pose proof (N.mod_upper_bound n 256). lia.
Qed.

Lemma byte_of_N_to_N b : byte_of_N (Byte.to_N b) = b.
Proof.
  unfold byte_of_N.
  rewrite N.mod_small by (pose proof (Byte.to_N_bounded b); lia).
  rewrite Byte.of_to_N. reflexivity.
Qed.

Lemma from_bytes_fold acc bs :
  fold_left (fun acc b => acc * 256 + Byte.to_N b) bs acc
  = acc * 256 ^ len bs + from_bytes bs.
Proof.
  unfold from_bytes, len. revert acc.
  induction bs as [|b bs IH]; intros acc.
  - simpl. lia.
  - cbn [fold_left length]. rewrite IH, (IH (0 * 256 + _)).
    rewrite Nat2N.inj_succ, N.pow_succ_r'. lia.
Qed.

Lemma from_bytes_cons b bs :
  from_bytes (b :: bs) = Byte.to_N b * 256 ^ len bs + from_bytes bs.
Proof. unfold from_bytes at 1. cbn [fold_left]. apply from_bytes_fold. Qed.

Lemma from_bytes_app a b :
  from_bytes (a ++ b) = from_bytes a * 256 ^ len b + from_bytes b.
Proof.
  unfold from_bytes at 1. rewrite fold_left_app.
  fold (from_bytes a). apply from_bytes_fold.
Qed.

Lemma length_be_digits w n : length (be_digits w n) = w.
Proof. induction w; simpl; congruence. Qed.

Lemma from_bytes_be_digits w n :
  from_bytes (be_digits w n) = n mod 256 ^ N.of_nat w.
Proof.
  induction w as [|w IH].
  - simpl. rewrite N.mod_1_r. reflexivity.
  - cbn [be_digits]. rewrite from_bytes_cons, IH, to_N_byte_of_N.
    unfold len. rewrite length_be_digits.
    rewrite Nat2N.inj_succ, N.pow_succ_r', (N.mul_comm 256).
    rewrite N.Div0.mod_mul_r. lia.
Qed.

Lemma to_bytes_ret w n :
  n < 256 ^ N.of_nat w ->
  to_bytes w n = Ret (be_digits w n) /\ from_bytes (be_digits w n) = n.
Proof.
  intros Hn. unfold to_bytes.
  apply N.ltb_lt in Hn as Hn'. rewrite Hn'. split; [reflexivity|].
  rewrite from_bytes_be_digits. apply N.mod_small, Hn.
Qed.

(** ** The response codec (server side) *)

Lemma magic_bytes : to_bytes 2 MAGICNO = Ret [x49; x7e].
Proof. reflexivity. Qed.

Lemma construct_response_overflow (data : bytes) :
  2 ^ 32 <= len data -> Server.construct_response data = Raise OverflowError.
Proof.
  intros Hbig. unfold Server.construct_response.
  rewrite magic_bytes. unfold and_then, to_bytes.
  replace (len data <? 256 ^ N.of_nat 4) with false; [reflexivity|].
  symmetry. apply N.ltb_ge. exact Hbig.
Qed.

(** A payload that fits the DataLen field has an encoding. *)
Lemma construct_response_ret (data : bytes) :
  len data < 2 ^ 32 ->
  exists response, Server.construct_response data = Ret response.
Proof.
  intros Hfit.
  destruct (to_bytes_ret 4 (len data) Hfit) as [Hbytes _].
  unfold Server.construct_response.
  rewrite magic_bytes, Hbytes. cbn [and_then]. eexists; reflexivity.
Qed.

(** C4, as stated, fails: a payload of 2^32 bytes has no encoding, the
    length does not fit the four bytes of DataLen and [to_bytes] raises. *)
Lemma construct_response_4GiB :
  let data := repeat x00 (N.to_nat (2 ^ 32)) in
  len data = 2 ^ 32 /\ Server.construct_response data = Raise OverflowError.
Proof.
  assert (Hlen : len (repeat x00 (N.to_nat (2 ^ 32))) = 2 ^ 32).
  { unfold len. rewrite repeat_length. apply N2Nat.id. }
  split; [exact Hlen|].
  apply construct_response_overflow. rewrite Hlen. apply N.le_refl.
Qed.

(** C4 (amended): for every payload shorter than 2^32 bytes the encoded
    FileResponse carries the magic number and type 2, StatusCode 1 when the
    payload is non-empty and 0 when it is empty, a DataLen field equal to the
    payload's length, and after the 8-byte header exactly the payload. *)
Theorem construct_response_fields (data : bytes) :
  len data < 2 ^ 32 ->
  exists response,
    Server.construct_response data = Ret response /\
    from_bytes (slice 0 2 response) = MAGICNO /\
    Byte.to_N <$> response !! 2%nat = Some RESPONSE_TYPE /\
    Byte.to_N <$> response !! 3%nat = Some (if decide (data = []) then 0 else 1) /\
    from_bytes (slice 4 8 response) = len data /\
    drop 8 response = data.
Proof.
  intros Hfit.
  destruct (to_bytes_ret 4 (len data) Hfit) as [Hbytes Hvalue].
  unfold Server.construct_response.
  rewrite magic_bytes, Hbytes. cbn [and_then].
  eexists; split; [reflexivity|].
  cbn [be_digits app]. repeat split.
  - destruct data; reflexivity.
  - exact Hvalue.
Qed.

Lemma construct_response_fields_witness :
  exists response,
    Server.construct_response [x68; x69] = Ret response /\
    from_bytes (slice 0 2 response) = MAGICNO /\
    Byte.to_N <$> response !! 2%nat = Some RESPONSE_TYPE /\
    Byte.to_N <$> response !! 3%nat = Some 1 /\
    from_bytes (slice 4 8 response) = 2 /\
    drop 8 response = [x68; x69].
Proof. apply (construct_response_fields [x68; x69]). reflexivity. Defined.

(** ** Request header validation (server side) *)

(** C5: with the magic number and the type valid, the server's header
    validation rejects FilenameLen 0 and 1025 and accepts 1 and 1024. *)
Theorem filename_len_boundaries (st : state) :
  fst (Server.is_valid_header (request_header 0) st) = Ret false /\
  fst (Server.is_valid_header (request_header 1025) st) = Ret false /\
  fst (Server.is_valid_header (request_header 1) st) = Ret true /\
  fst (Server.is_valid_header (request_header 1024) st) = Ret true.
Proof. repeat apply conj; reflexivity. Qed.


(** ** Reading from the socket *)

Lemma len_take {A} (n : N) (l : list A) :
  len (take (N.to_nat n) l) = N.min n (len l).
Proof. unfold len. rewrite length_take. lia. Qed.

(** One [recv] when data has arrived: at most [bufsize] bytes of it, the rest
    stays queued. *)
Lemma sock_recv_data (bufsize : N) (st : state) (bs : bytes) (rest : list recv_event) :
  sock_in st = Data bs :: rest ->
  sock_recv bufsize st =
    (Ret (Received (take (N.to_nat bufsize) bs)),
     State (if len bs <=? bufsize then rest
            else Data (drop (N.to_nat bufsize) bs) :: rest)
           (sock_send_ok st) (files st) (write_faults st)
           (trace st ++ [Recv bufsize])).
Proof.
  intros Hin. unfold sock_recv. rewrite Hin.
  destruct (len bs <=? bufsize) eqn:Hfit; [|reflexivity].
  apply N.leb_le in Hfit. unfold len in Hfit.
  rewrite take_ge by lia. reflexivity.
Qed.

(** One [recv] when data has arrived or the stream is closed. *)
Lemma sock_recv_arrived (bufsize : N) (st : state) (bs : bytes) :
  arrived (sock_in st) = Some bs ->
  exists queue,
    sock_recv bufsize st =
      (Ret (Received (take (N.to_nat bufsize) bs)),
       State queue (sock_send_ok st) (files st) (write_faults st)
             (trace st ++ [Recv bufsize])).
Proof.
  destruct (sock_in st) as [|[bs'| |] rest] eqn:Hin; try discriminate.
  - intros [= <-]. exists []. unfold sock_recv. rewrite Hin, take_nil. reflexivity.
  - intros [= <-]. eexists. apply sock_recv_data, Hin.
Qed.

(** A [recv] never fails to return in the model, and it only moves the
    queue and the trace. *)
Lemma sock_recv_frame (bufsize : N) (st st1 : state) (r : outcome recv_result) :
  sock_recv bufsize st = (r, st1) ->
  sock_send_ok st1 = sock_send_ok st /\ files st1 = files st /\
  write_faults st1 = write_faults st /\ trace st1 = trace st ++ [Recv bufsize].
Proof.
  unfold sock_recv.
  destruct (sock_in st) as [|[bs| |] rest];
    [| destruct (len bs <=? bufsize) | |]; intros [= _ <-]; auto.
Qed.

(** When the server's header read returns, it has made one [recv] and
    touched nothing else. *)
Lemma server_get_header_ret (st st1 : state) (header : bytes) :
  Server.get_header st = (Ret header, st1) ->
  sock_send_ok st1 = sock_send_ok st /\ files st1 = files st /\
  write_faults st1 = write_faults st /\
  trace st1 = trace st ++ [Recv REQUEST_HEADER_LEN].
Proof.
  unfold Server.get_header, bind.
  destruct (sock_recv REQUEST_HEADER_LEN st) as [[[bs| |]| |] st0] eqn:Hrecv;
    try discriminate.
  intros [= _ <-]. eapply sock_recv_frame, Hrecv.
Qed.

(** The same for the client. *)
Lemma client_get_header_ret (st st1 : state) (header : bytes) :
  Client.get_header st = (Ret header, st1) ->
  sock_send_ok st1 = sock_send_ok st /\ files st1 = files st /\
  write_faults st1 = write_faults st /\
  trace st1 = trace st ++ [Recv RESPONSE_HEADER_LEN].
Proof.
  unfold Client.get_header, bind.
  destruct (sock_recv RESPONSE_HEADER_LEN st) as [[[bs| |]| |] st0] eqn:Hrecv;
    try discriminate.
  intros [= _ <-]. eapply sock_recv_frame, Hrecv.
Qed.

(** A state is its five fields. *)
Lemma state_eta (st : state) :
  State (sock_in st) (sock_send_ok st) (files st) (write_faults st) (trace st) = st.
Proof. destruct st; reflexivity. Qed.

(** ** The server's verdict on a header *)

(** A header the server accepts is accepted in every state, silently. *)
Lemma is_valid_header_true (header : bytes) (st : state) :
  fst (Server.is_valid_header header st) = Ret true ->
  forall s, Server.is_valid_header header s = (Ret true, s).
Proof.
  unfold Server.is_valid_header, index, bind, print, emit, ret, raise.
  intros Hvalid s. revert Hvalid.
  destruct (len header =? 0); [discriminate|].
  destruct (negb _); [discriminate|].
  destruct (header !! 2%nat) as [type|]; [|discriminate].
  destruct (negb _); [discriminate|].
  destruct (_ || _); [discriminate|].
  reflexivity.
Qed.

(** A header the server rejects is rejected in every state, with one line
    of output. *)
Lemma is_valid_header_false (header : bytes) (st : state) :
  fst (Server.is_valid_header header st) = Ret false ->
  exists m, forall s,
    Server.is_valid_header header s =
      (Ret false, State (sock_in s) (sock_send_ok s) (files s) (write_faults s)
                        (trace s ++ [Print m])).
Proof.
  unfold Server.is_valid_header, index, bind, print, emit, ret, raise.
  destruct (len header =? 0); [intros _; eexists; intros; reflexivity|].
  destruct (negb _); [intros _; eexists; intros; reflexivity|].
  destruct (header !! 2%nat) as [type|]; [|discriminate].
  destruct (negb _); [intros _; eexists; intros; reflexivity|].
  destruct (_ || _); [intros _; eexists; intros; reflexivity|].
  discriminate.
Qed.

(** What an accepted header looks like. *)
Lemma is_valid_header_fields (header : bytes) (st : state) :
  fst (Server.is_valid_header header st) = Ret true ->
  from_bytes (slice 0 2 header) = MAGICNO /\
  Byte.to_N <$> header !! 2%nat = Some REQUEST_TYPE /\
  MIN_FILENAME_LEN <= from_bytes (slice 3 5 header) <= MAX_FILENAME_LEN.
Proof.
  unfold Server.is_valid_header, index, bind, print, emit, ret, raise.
  destruct (len header =? 0); [discriminate|].
  destruct (from_bytes (slice 0 2 header) =? MAGICNO) eqn:Hmagic; [|discriminate].
  destruct (header !! 2%nat) as [type|]; [|discriminate]. cbn.
  destruct (Byte.to_N type =? REQUEST_TYPE) eqn:Htype; [|discriminate]. cbn.
  destruct (_ || _) eqn:Hlen; [discriminate|].
  apply orb_false_elim in Hlen as [Hlo Hhi].
  apply N.eqb_eq in Hmagic, Htype. apply N.ltb_ge in Hlo, Hhi.
  intros _. rewrite Htype. auto.
Qed.

(** A header with a wrong magic number or type is rejected. *)
Lemma is_valid_header_bad (header : bytes) (st : state) :
  bad_header REQUEST_TYPE header ->
  fst (Server.is_valid_header header st) = Ret false.
Proof.
  intros Hbad. unfold Server.is_valid_header.
  destruct (len header =? 0); [reflexivity|].
  destruct (from_bytes (slice 0 2 header) =? MAGICNO) eqn:Hmagic; cbn [negb];
    [|reflexivity].
  apply N.eqb_eq in Hmagic.
  destruct Hbad as [Hbad | (type & Htype & Hbad)]; [contradiction|].
  unfold index, bind. rewrite Htype. unfold ret.
  apply N.eqb_neq in Hbad. rewrite Hbad. reflexivity.
Qed.

(** The client's validation exits on such a header, with one line of
    output. *)
Lemma validate_header_bad (header : bytes) :
  bad_header RESPONSE_TYPE header ->
  exists m, forall st,
    Client.validate_header header st =
      (Exit 1, State (sock_in st) (sock_send_ok st) (files st)
                     (write_faults st) (trace st ++ [Print m])).
Proof.
  intros Hbad. unfold Client.validate_header, when, bind.
  destruct (len header =? 0); [eexists; intros; reflexivity|].
  unfold ret.
  destruct (from_bytes (slice 0 2 header) =? MAGICNO) eqn:Hmagic; cbn [negb];
    [|eexists; intros; reflexivity].
  apply N.eqb_eq in Hmagic.
  destruct Hbad as [Hbad | (type & Htype & Hbad)]; [contradiction|].
  unfold index. rewrite Htype. unfold ret. cbv beta iota.
  apply N.eqb_neq in Hbad. rewrite Hbad. cbn [negb].
  eexists; intros; reflexivity.
Qed.

(** ** The server's filename read *)

(** [get_filename] when bytes have arrived or the stream is closed. *)
Lemma get_filename_arrived (header : bytes) (st : state) (bs : bytes) :
  arrived (sock_in st) = Some bs ->
  let filename_len := from_bytes (drop 3 header) in
  exists st',
    Server.get_filename header st =
      (Ret (if len bs =? filename_len then Some (map chr bs) else None), st') /\
    sock_send_ok st' = sock_send_ok st /\
    files st' = files st /\
    trace st' = trace st ++ Recv (filename_len + 1) ::
      (if len bs =? filename_len then []
       else [Print (if filename_len <? len bs
                    then TooManyFilenameBytes (filename_len + 1)
                    else FilenameBytes (len bs));
             Print (ExpectedBytes filename_len)]).
Proof.
  intros Harrived filename_len.
  destruct (sock_recv_arrived (filename_len + 1) st bs Harrived) as [queue Hrecv].
  unfold Server.get_filename. fold filename_len.
  unfold bind. rewrite Hrecv, len_take.
  destruct (len bs =? filename_len) eqn:Hlen.
  - apply N.eqb_eq in Hlen.
    replace (N.min (filename_len + 1) (len bs) =? filename_len) with true
      by (symmetry; apply N.eqb_eq; lia).
    cbn. unfold ret. rewrite take_ge by (unfold len in Hlen; lia).
    eexists; repeat apply conj; reflexivity.
  - apply N.eqb_neq in Hlen.
    replace (N.min (filename_len + 1) (len bs) =? filename_len) with false
      by (symmetry; apply N.eqb_neq; lia).
    cbn. unfold print, emit, ret.
    destruct (filename_len <? len bs) eqn:Hmore.
    + apply N.ltb_lt in Hmore.
      replace (filename_len <? N.min (filename_len + 1) (len bs)) with true
        by (symmetry; apply N.ltb_lt; lia).
      replace (N.min (filename_len + 1) (len bs)) with (filename_len + 1) by lia.
      eexists; repeat apply conj; try reflexivity.
      cbn. rewrite <- !app_assoc. reflexivity.
    + apply N.ltb_ge in Hmore.
      replace (filename_len <? N.min (filename_len + 1) (len bs)) with false
        by (symmetry; apply N.ltb_ge; lia).
      replace (N.min (filename_len + 1) (len bs)) with (len bs) by lia.
      eexists; repeat apply conj; try reflexivity.
      cbn. rewrite <- !app_assoc. reflexivity.
Qed.

(** A connection whose filename does not have the declared length is closed
    with nothing sent on it. *)
Lemma handle_connection_mismatch (E : env) (st st1 : state) (header bs : bytes) :
  Server.get_header st = (Ret header, st1) ->
  fst (Server.is_valid_header header st1) = Ret true ->
  arrived (sock_in st1) = Some bs ->
  let filename_len := from_bytes (drop 3 header) in
  len bs <> filename_len ->
  exists st3,
    with_socket (Server.handle_connection E) st = (Ret tt, st3) /\
    trace st3 = trace st ++
      [Recv REQUEST_HEADER_LEN; Recv (filename_len + 1);
       Print (if filename_len <? len bs
              then TooManyFilenameBytes (filename_len + 1)
              else FilenameBytes (len bs));
       Print (ExpectedBytes filename_len); CloseSocket].
Proof.
  intros Hheader Hvalid Harrived filename_len Hne.
  destruct (server_get_header_ret st st1 header Hheader) as (_ & _ & _ & Htrace1).
  destruct (get_filename_arrived header st1 bs Harrived)
    as (st2 & Hname & _ & _ & Htrace2).
  fold filename_len in Hname, Htrace2.
  apply N.eqb_neq in Hne. rewrite Hne in Hname, Htrace2.
  unfold with_socket, Server.handle_connection, bind.
  rewrite Hheader, (is_valid_header_true header st1 Hvalid st1).
  cbn [negb]. rewrite Hname. cbn [ret].
  eexists; split; [reflexivity|].
  cbn [trace]. rewrite Htrace2, Htrace1, <- !app_assoc. reflexivity.
Qed.

(** C7: the filename read asks for FilenameLen + 1 bytes.  When exactly
    FilenameLen bytes arrive the filename is returned; when more arrive, or
    fewer, the request is reported as malformed and the connection is closed
    with nothing sent on it. *)
Theorem filename_read_policy (E : env) (st st1 : state) (header bs : bytes) :
  Server.get_header st = (Ret header, st1) ->
  fst (Server.is_valid_header header st1) = Ret true ->
  arrived (sock_in st1) = Some bs ->
  let filename_len := from_bytes (drop 3 header) in
  (len bs = filename_len ->
   exists st2,
     Server.get_filename header st1 = (Ret (Some (map chr bs)), st2) /\
     trace st2 = trace st1 ++ [Recv (filename_len + 1)]) /\
  (filename_len < len bs ->
   exists st3,
     with_socket (Server.handle_connection E) st = (Ret tt, st3) /\
     trace st3 = trace st ++
       [Recv REQUEST_HEADER_LEN; Recv (filename_len + 1);
        Print (TooManyFilenameBytes (filename_len + 1));
        Print (ExpectedBytes filename_len); CloseSocket]) /\
  (len bs < filename_len ->
   exists st3,
     with_socket (Server.handle_connection E) st = (Ret tt, st3) /\
     trace st3 = trace st ++
       [Recv REQUEST_HEADER_LEN; Recv (filename_len + 1);
        Print (FilenameBytes (len bs));
        Print (ExpectedBytes filename_len); CloseSocket]).
Proof.
  intros Hheader Hvalid Harrived filename_len.
  repeat apply conj.
  - intros Heq.
    destruct (get_filename_arrived header st1 bs Harrived)
      as (st2 & Hname & _ & _ & Htrace).
    fold filename_len in Hname, Htrace.
    apply N.eqb_eq in Heq. rewrite Heq in Hname, Htrace.
    exists st2. split; assumption.
  - intros Hmore.
    destruct (handle_connection_mismatch E st st1 header bs Hheader Hvalid Harrived)
      as (st3 & Hrun & Htrace); [fold filename_len; lia|].
    fold filename_len in Htrace.
    apply N.ltb_lt in Hmore. rewrite Hmore in Htrace.
    exists st3. split; assumption.
  - intros Hless.
    destruct (handle_connection_mismatch E st st1 header bs Hheader Hvalid Harrived)
      as (st3 & Hrun & Htrace); [fold filename_len; lia|].
    fold filename_len in Htrace.
    replace (filename_len <? len bs) with false in Htrace
      by (symmetry; apply N.ltb_ge; lia).
    exists st3. split; assumption.
Qed.

Lemma filename_read_policy_witness :
  exists st3,
    with_socket (Server.handle_connection obliging)
      (fresh [Data (request_header 2 ++ [x68; x69; x21])]) = (Ret tt, st3) /\
    trace st3 =
      [Recv 5; Recv 3; Print (TooManyFilenameBytes 3); Print (ExpectedBytes 2);
       CloseSocket].
Proof.
  destruct (filename_read_policy obliging
              (fresh [Data (request_header 2 ++ [x68; x69; x21])])
              (State [Data [x68; x69; x21]] true ∅ [] [Recv 5])
              (request_header 2) [x68; x69; x21])
    as (_ & Hmore & _).
  - reflexivity.
  - reflexivity.
  - reflexivity.
  - apply Hmore. reflexivity.
Defined.

(** ** Headers with a wrong magic number or type *)

Lemma server_drops_bad_header (E : env) (st st1 : state) (header : bytes) :
  Server.get_header st = (Ret header, st1) ->
  bad_header REQUEST_TYPE header ->
  exists m st',
    with_socket (Server.handle_connection E) st = (Ret tt, st') /\
    sock_in st' = sock_in st1 /\
    trace st' = trace st ++ [Recv REQUEST_HEADER_LEN; Print m; CloseSocket].
Proof.
  intros Hheader Hbad.
  destruct (server_get_header_ret st st1 header Hheader) as (_ & _ & _ & Htrace).
  destruct (is_valid_header_false header st1 (is_valid_header_bad header st1 Hbad))
    as [m Hreject].
  exists m. eexists.
  unfold with_socket, Server.handle_connection, bind.
  rewrite Hheader, Hreject. cbn.
  repeat apply conj; try reflexivity.
  rewrite Htrace, <- !app_assoc. reflexivity.
Qed.

(** A client run whose arguments pass the checks, whose socket connects and
    whose request goes out. *)
Section ClientRun.
Variables (E : env) (argv : list str) (st : state).
Variables (ip : str) (port : Z) (filename : str) (request : bytes).
Hypothesis Hargs : Client.arguemnt_check E argv st = (Ret (ip, port, filename), st).
Hypothesis Hsocket : socket_ok E = true.
Hypothesis Hconnect : connect_ok E = true.
Hypothesis Hrequest : Client.construct_request filename = Ret request.
Hypothesis Hsend : sock_send_ok st = true.

(** What is left of [main] once the request has been sent. *)
Lemma main_request_sent :
  Client.main E argv st =
    with_socket
      (header <- Client.get_header;;
       Client.validate_header header;;
       Client.check_status_code header;;
       total_bytes <- Client.save_file E filename header;;
       Client.print_info filename total_bytes)
      (request_sent request st).
Proof.
  unfold Client.main. unfold bind at 1. rewrite Hargs.
  unfold Client.create_socket. rewrite Hsocket.
  unfold bind at 1. unfold ret at 1.
  unfold with_socket, Client.connect_to_server.
  rewrite Hconnect, Hrequest.
  unfold bind at 1. unfold bind at 1. unfold emit at 1. unfold ret at 1.
  unfold bind at 1. unfold lift at 1.
  unfold bind at 1. unfold sock_sendall at 1. cbn [sock_send_ok].
  rewrite Hsend. cbn [negb when].
  unfold bind at 1. unfold ret at 1.
  cbn [sock_in files write_faults trace]. unfold request_sent.
  rewrite <- app_assoc, Hsend. reflexivity.
Qed.

Lemma client_exits_on_bad_header (header : bytes) (st1 : state) :
  Client.get_header (request_sent request st) = (Ret header, st1) ->
  bad_header RESPONSE_TYPE header ->
  exists m st',
    Client.main E argv st = (Exit 1, st') /\
    sock_in st' = sock_in st1 /\ files st' = files st /\
    trace st' = trace st ++
      [Connect; SendAll request; Recv RESPONSE_HEADER_LEN; Print m; CloseSocket].
Proof.
  intros Hheader Hbad.
  destruct (client_get_header_ret _ st1 header Hheader) as (_ & Hfiles & _ & Htrace).
  destruct (validate_header_bad header Hbad) as [m Hreject].
  exists m. eexists.
  rewrite main_request_sent.
  unfold with_socket, bind. rewrite Hheader, Hreject. cbn.
  repeat apply conj; try reflexivity; [exact Hfiles|].
  rewrite Htrace. cbn [request_sent trace]. rewrite <- !app_assoc. reflexivity.
Qed.
End ClientRun.

(** C6: a header whose MagicNo is not 0x497E, or whose Type is not the
    expected one (1 on the server, 2 on the client), is rejected at once: the
    server closes the connection and the client exits, and neither reads from
    the socket again after the [recv] that brought the header. *)
Theorem bad_header_rejected_before_payload :
  (forall E st header st1,
      Server.get_header st = (Ret header, st1) ->
      bad_header REQUEST_TYPE header ->
      exists m st',
        with_socket (Server.handle_connection E) st = (Ret tt, st') /\
        sock_in st' = sock_in st1 /\
        trace st' = trace st ++ [Recv REQUEST_HEADER_LEN; Print m; CloseSocket]) /\
  (forall E argv st ip port filename request header st1,
      Client.arguemnt_check E argv st = (Ret (ip, port, filename), st) ->
      socket_ok E = true ->
      connect_ok E = true ->
      Client.construct_request filename = Ret request ->
      sock_send_ok st = true ->
      Client.get_header (request_sent request st) = (Ret header, st1) ->
      bad_header RESPONSE_TYPE header ->
      exists m st',
        Client.main E argv st = (Exit 1, st') /\
        sock_in st' = sock_in st1 /\ files st' = files st /\
        trace st' = trace st ++
          [Connect; SendAll request; Recv RESPONSE_HEADER_LEN; Print m;
           CloseSocket]).
Proof.
  split.
  - intros. eapply server_drops_bad_header; eassumption.
  - intros. eapply client_exits_on_bad_header; eassumption.
Qed.

Lemma bad_header_rejected_before_payload_witness :
  (exists m st',
      with_socket (Server.handle_connection obliging)
        (fresh [Data [x00; x00; x01; x00; x01; x66]]) = (Ret tt, st') /\
      sock_in st' = [Data [x66]] /\
      trace st' = [Recv REQUEST_HEADER_LEN; Print m; CloseSocket]) /\
  (exists m st',
      Client.main obliging a_command_line
        (fresh [Data [x49; x7e; x01; x01; x00; x00; x00; x01; x66]])
      = (Exit 1, st') /\
      sock_in st' = [Data [x66]] /\ files st' = ∅ /\
      trace st' =
        [Connect; SendAll [x49; x7e; x01; x00; x01; x66];
         Recv RESPONSE_HEADER_LEN; Print m; CloseSocket]).
Proof.
  split.
  - apply (proj1 bad_header_rejected_before_payload obliging
             (fresh [Data [x00; x00; x01; x00; x01; x66]])
             [x00; x00; x01; x00; x01]
             (State [Data [x66]] true ∅ [] [Recv REQUEST_HEADER_LEN])).
    + reflexivity.
    + left. vm_compute. discriminate.
  - apply (proj2 bad_header_rejected_before_payload obliging a_command_line
             (fresh [Data [x49; x7e; x01; x01; x00; x00; x00; x01; x66]])
             [104] 5000%Z [102] [x49; x7e; x01; x00; x01; x66]
             [x49; x7e; x01; x01; x00; x00; x00; x01]
             (State [Data [x66]] true ∅ []
                    [Connect; SendAll [x49; x7e; x01; x00; x01; x66];
                     Recv RESPONSE_HEADER_LEN])).
    + reflexivity.
    + reflexivity.
    + reflexivity.
    + reflexivity.
    + reflexivity.
    + reflexivity.
    + right. exists x01. split; [reflexivity | vm_compute; discriminate].
Defined.

(** ** The trace only grows *)

Create HintDb extends discriminated.

Lemma extends_ret {A} (a : A) : extends (ret a).
Proof. intros st. exists []. symmetry. apply app_nil_r. Qed.

Lemma extends_exit {A} (code : Z) : extends (@exit A code).
Proof. intros st. exists []. symmetry. apply app_nil_r. Qed.

Lemma extends_raise {A} (e : exn) : extends (@raise A e).
Proof. intros st. exists []. symmetry. apply app_nil_r. Qed.

Lemma extends_lift {A} (r : outcome A) : extends (lift r).
Proof. intros st. exists []. symmetry. apply app_nil_r. Qed.

Lemma extends_emit (e : event) : extends (emit e).
Proof. intros st. exists [e]. reflexivity. Qed.

Lemma extends_print (m : message) : extends (print m).
Proof. apply extends_emit. Qed.

Lemma extends_bind {A B} (c : M A) (k : A -> M B) :
  extends c -> (forall a, extends (k a)) -> extends (bind c k).
Proof.
  intros Hc Hk st. unfold bind.
  destruct (Hc st) as [evs Hevs].
  destruct (c st) as [[a|code|e] st1]; cbn [snd] in *.
  - destruct (Hk a st1) as [evs' Hevs'].
    exists (evs ++ evs'). rewrite Hevs', Hevs. symmetry. apply app_assoc.
  - exists evs. exact Hevs.
  - exists evs. exact Hevs.
Qed.

Lemma extends_when (b : bool) (c : M unit) : extends c -> extends (when b c).
Proof. destruct b; [trivial | intros _; apply extends_ret]. Qed.

Lemma extends_if {A} (b : bool) (c1 c2 : M A) :
  extends c1 -> extends c2 -> extends (if b then c1 else c2).
Proof. destruct b; trivial. Qed.

Lemma extends_index (b : bytes) (i : nat) : extends (index b i).
Proof. unfold index. destruct (b !! i); [apply extends_ret | apply extends_raise]. Qed.

Lemma extends_with_socket {A} (body : M A) : extends body -> extends (with_socket body).
Proof.
  intros Hbody st. unfold with_socket.
  destruct (Hbody st) as [evs Hevs].
  destruct (body st) as [r st1]; cbn [snd trace] in *.
  exists (evs ++ [CloseSocket]). rewrite Hevs. symmetry. apply app_assoc.
Qed.

Lemma extends_sock_recv (bufsize : N) : extends (sock_recv bufsize).
Proof.
  intros st. exists [Recv bufsize]. unfold sock_recv.
  destruct (sock_in st) as [|[bs| |] rest]; try reflexivity.
  destruct (len bs <=? bufsize); reflexivity.
Qed.

Lemma extends_sock_sendall (data : bytes) : extends (sock_sendall data).
Proof. intros st. exists [SendAll data]. reflexivity. Qed.

Lemma extends_isfile (name : str) : extends (isfile name).
Proof. intros st. exists []. symmetry. apply app_nil_r. Qed.

Lemma extends_open_read (E : env) (name : str) : extends (open_read E name).
Proof.
  intros st. exists []. unfold open_read.
  destruct (files st !! name); [destruct (readable E name)|];
    symmetry; apply app_nil_r.
Qed.

#[export] Hint Resolve extends_ret extends_exit extends_raise extends_lift
  extends_emit extends_print extends_when extends_if extends_index
  extends_with_socket extends_sock_recv extends_sock_sendall extends_isfile
  extends_open_read : extends.

Ltac extends_step :=
  match goal with
  | |- extends (bind _ _) => apply extends_bind; [|intros ?]
  | |- extends (match ?x with _ => _ end) => destruct x
  | |- extends _ => solve [auto with extends]
  end.

Lemma extends_handle_connection (E : env) : extends (Server.handle_connection E).
Proof.
  unfold Server.handle_connection, Server.get_header, Server.is_valid_header,
    Server.get_filename, Server.get_file_data, Server.send_response,
    Server.print_info.
  repeat extends_step.
Qed.

Lemma extends_accept_connection (arrival : option connection) :
  extends (Server.accept_connection arrival).
Proof.
  unfold Server.accept_connection. destruct arrival as [conn|].
  - intros st. exists [Accept; Print ConnectionInfo]. cbn.
    rewrite <- app_assoc. reflexivity.
  - repeat extends_step.
Qed.

Lemma extends_serve (E : env) (arrivals : list (option connection)) :
  extends (Server.serve E arrivals).
Proof.
  induction arrivals as [|arrival later IH]; cbn [Server.serve].
  - repeat extends_step.
  - apply extends_bind; [auto with extends|]. intros _.
    apply extends_bind; [apply extends_accept_connection|]. intros accepted.
    apply extends_bind; [|intros _; exact IH].
    destruct accepted; [|auto with extends].
    apply extends_with_socket, extends_handle_connection.
Qed.

(** Whatever arrives, the loop's next move is to call [accept]. *)
Lemma serve_accepts (E : env) (arrivals : list (option connection)) (st : state) :
  exists evs,
    trace (snd (Server.serve E arrivals st)) = trace st ++ [Print Blank; Accept] ++ evs.
Proof.
  destruct arrivals as [|arrival later]; cbn [Server.serve].
  - exists []. cbn. rewrite <- app_assoc. reflexivity.
  - set (st1 := State (sock_in st) (sock_send_ok st) (files st) (write_faults st)
                      (trace st ++ [Print Blank])).
    set (k := fun accepted : bool =>
                (if accepted then with_socket (Server.handle_connection E)
                 else ret tt);; Server.serve E later).
    assert (Hk : forall accepted, extends (k accepted)).
    { intros accepted. apply extends_bind.
      - destruct accepted; auto using extends_handle_connection with extends.
      - intros _. apply extends_serve. }
    unfold bind at 1. cbn [print emit].
    fold st1. fold k.
    destruct arrival as [conn|]; unfold Server.accept_connection.
    + set (st2 := State (conn_in conn) (conn_send_ok conn) (files st)
                        (write_faults st)
                        (trace st ++ [Print Blank; Accept; Print ConnectionInfo])).
      destruct (Hk true st2) as [evs Hevs].
      exists (Print ConnectionInfo :: evs).
      replace (bind _ k st1) with (k true st2).
      * rewrite Hevs. subst st2. cbn [trace]. rewrite <- app_assoc. reflexivity.
      * subst st1 st2. unfold bind, emit, print, emit. cbn.
        rewrite <- !app_assoc. reflexivity.
    + set (st2 := State (sock_in st) (sock_send_ok st) (files st)
                        (write_faults st)
                        (trace st ++ [Print Blank; Accept; Print AcceptFailed])).
      destruct (Hk false st2) as [evs Hevs].
      exists (Print AcceptFailed :: evs).
      replace (bind _ k st1) with (k false st2).
      * rewrite Hevs. subst st2. cbn [trace]. rewrite <- app_assoc. reflexivity.
      * subst st1 st2. unfold bind, emit, print, emit, ret. cbn.
        rewrite <- !app_assoc. reflexivity.
Qed.

(** ** Which failures the server survives *)

(** One turn of the accept loop on a connection that is accepted. *)
Lemma serve_cons (E : env) (conn : connection) (later : list (option connection))
    (st : state) :
  Server.serve E (Some conn :: later) st =
    match with_socket (Server.handle_connection E) (accepted conn st) with
    | (Ret _, st') => Server.serve E later st'
    | (Exit code, st') => (Exit code, st')
    | (Raise e, st') => (Raise e, st')
    end.
Proof.
  cbn [Server.serve]. unfold Server.accept_connection.
  unfold bind at 1. cbn [print emit].
  unfold bind at 1. unfold bind at 1. cbn [emit].
  unfold bind at 1. cbn [print emit sock_in sock_send_ok files write_faults trace].
  unfold bind at 1. unfold accepted.
  rewrite <- !app_assoc. reflexivity.
Qed.

(** [get_file_data] always returns: the contents of a readable file, else
    no bytes.  It touches neither the socket nor the files. *)
Lemma get_file_data_ret (E : env) (filename : str) (st : state) :
  exists file_data evs,
    Server.get_file_data E filename st =
      (Ret file_data, State (sock_in st) (sock_send_ok st) (files st)
                            (write_faults st) (trace st ++ evs)) /\
    (file_data = [] \/ files st !! filename = Some file_data).
Proof.
  unfold Server.get_file_data, open_read, isfile, bind, print, emit, ret.
  destruct (files st !! filename) as [contents|] eqn:Hfile.
  - destruct (readable E filename).
    + exists contents, []. rewrite app_nil_r. destruct st; auto.
    + eexists [], [_]. split; [reflexivity | auto].
  - eexists [], [_]. split; [reflexivity | auto].
Qed.

Lemma local_failure_handled (E : env) (conn : connection) (st : state) :
  local_failure conn st ->
  exists st', with_socket (Server.handle_connection E) (accepted conn st) = (Ret tt, st').
Proof.
  intros [header st1 Hheader Hreject
         | header st1 bs Hheader Hvalid Harrived Hne
         | header st1 bs Hheader Hvalid Harrived Heq Hfits Hsend].
  - destruct (is_valid_header_false header st1 Hreject) as [m Hm].
    unfold with_socket, Server.handle_connection, bind.
    rewrite Hheader, Hm. cbn. eexists; reflexivity.
  - destruct (handle_connection_mismatch E _ st1 header bs Hheader Hvalid Harrived Hne)
      as (st3 & Hrun & _).
    exists st3. exact Hrun.
  - destruct (server_get_header_ret _ st1 header Hheader) as (Hok1 & Hfiles1 & _ & _).
    destruct (get_filename_arrived header st1 bs Harrived)
      as (st2 & Hname & Hok2 & Hfiles2 & _).
    rewrite Heq, N.eqb_refl in Hname.
    destruct (get_file_data_ret E (map chr bs) st2)
      as (file_data & evs & Hdata & Hwhich).
    assert (Hfit : len file_data < 2 ^ 32).
    { destruct Hwhich as [-> | Hfile]; [reflexivity|].
      apply Hfits. rewrite <- Hfile, Hfiles2, Hfiles1. reflexivity. }
    destruct (construct_response_ret file_data Hfit) as (response & Hresponse).
    unfold with_socket, Server.handle_connection, bind.
    rewrite Hheader, (is_valid_header_true header st1 Hvalid st1).
    cbn [negb]. rewrite Hname, Hdata, Hresponse.
    unfold lift, Server.send_response, sock_sendall, bind.
    cbn [sock_send_ok]. rewrite Hok2, Hok1. cbn [sock_send_ok accepted].
    rewrite Hsend. cbn. eexists; reflexivity.
Qed.

Lemma read_failure_exits (E : env) (conn : connection) (st : state) :
  read_failure conn st ->
  exists st' evs,
    with_socket (Server.handle_connection E) (accepted conn st) = (Exit 1, st') /\
    trace st' = trace (accepted conn st) ++ evs /\
    ~ In Accept evs.
Proof.
  intros [ev rest Hin Hev | header st1 ev rest Hheader Hvalid Hin Hev].
  - unfold with_socket, Server.handle_connection, Server.get_header, bind, sock_recv.
    unfold accepted. cbn [sock_in]. rewrite Hin.
    destruct Hev as [-> | ->]; cbn; eexists _, [_; _; _];
      (repeat apply conj; [reflexivity | rewrite <- !app_assoc; reflexivity |]);
      cbn; intros [? | [? | [? | []]]]; discriminate.
  - destruct (server_get_header_ret _ st1 header Hheader) as (_ & _ & _ & Htrace).
    generalize dependent (accepted conn st). intros st0 Hheader Htrace.
    unfold with_socket, Server.handle_connection, bind.
    rewrite Hheader, (is_valid_header_true header st1 Hvalid st1). cbn [negb].
    unfold Server.get_filename, bind, sock_recv. rewrite Hin.
    destruct Hev as [-> | ->]; cbn; eexists _, [_; _; _; _];
      (repeat apply conj;
       [reflexivity | rewrite Htrace, <- !app_assoc; reflexivity |]);
      cbn; intros [? | [? | [? | [? | []]]]]; discriminate.
Qed.

(** C1, as stated, fails: a client that connects and sends nothing makes the
    header read time out, [get_header] calls [exit(1)], and the connection
    waiting behind it is never accepted. *)
Lemma header_timeout_stops_server :
  let run := Server.serve obliging
               [Some (Connection [Timeout] true);
                Some (Connection [Data (request_header 1); Data [x66]] true)]
               (fresh []) in
  fst run = Exit 1 /\
  trace (snd run) =
    [Print Blank; Accept; Print ConnectionInfo; Recv REQUEST_HEADER_LEN;
     Print SocketTimedOut; CloseSocket].
Proof. split; reflexivity. Qed.

(** C1 (amended): a request that header validation rejects, a filename whose
    byte count differs from the declared length, and a response that cannot
    be sent end only their connection: the handler returns, the connection
    is closed and the loop calls [accept] again.  A timeout or an error of
    the header read or of the filename read makes the server process exit
    with status 1, and it accepts nothing after that. *)
Theorem connection_failures (E : env) (conn : connection)
    (later : list (option connection)) (st : state) :
  (local_failure conn st ->
   exists st',
     with_socket (Server.handle_connection E) (accepted conn st) = (Ret tt, st') /\
     Server.serve E (Some conn :: later) st = Server.serve E later st' /\
     exists evs,
       trace (snd (Server.serve E (Some conn :: later) st)) =
         trace st' ++ [Print Blank; Accept] ++ evs) /\
  (read_failure conn st ->
   exists st' evs,
     Server.serve E (Some conn :: later) st = (Exit 1, st') /\
     trace st' = trace (accepted conn st) ++ evs /\
     ~ In Accept evs).
Proof.
  split.
  - intros Hlocal.
    destruct (local_failure_handled E conn st Hlocal) as [st' Hrun].
    assert (Hnext : Server.serve E (Some conn :: later) st = Server.serve E later st').
    { rewrite serve_cons, Hrun. reflexivity. }
    exists st'. repeat apply conj; [exact Hrun | exact Hnext |].
    rewrite Hnext. apply serve_accepts.
  - intros Hread.
    destruct (read_failure_exits E conn st Hread) as (st' & evs & Hrun & Htrace & Hnone).
    exists st', evs. repeat apply conj; [|exact Htrace | exact Hnone].
    rewrite serve_cons, Hrun. reflexivity.
Qed.

Lemma connection_failures_witness :
  (exists st',
     Server.serve obliging
       [Some (Connection [Data (request_header 0)] true); None] (fresh []) =
     Server.serve obliging [None] st') /\
  (exists st',
     Server.serve obliging [Some (Connection [Timeout] true); None] (fresh []) =
     (Exit 1, st')).
Proof.
  pose proof (connection_failures obliging
                (Connection [Data (request_header 0)] true) [None] (fresh []))
    as [Hlocal _].
  pose proof (connection_failures obliging
                (Connection [Timeout] true) [None] (fresh []))
    as [_ Hread].
  split.
  - destruct Hlocal as (st' & _ & Hnext & _).
    + eapply (rejected_header _ _ (request_header 0)); reflexivity.
    + exists st'. exact Hnext.
  - destruct Hread as (st' & evs & Hexit & _).
    + apply (header_read_fails _ _ Timeout []); [reflexivity | left; reflexivity].
    + exists st'. exact Hexit.
Defined.

(** ** The client's transfer loop *)

Lemma save_file_loop_unfold (E : env) (file : str) (total_bytes : N) (st : state) :
  Client.save_file_loop E file total_bytes st =
    match Client.save_file_turn E file total_bytes st with
    | (Ret (total, true), st') => Client.save_file_loop E file total st'
    | (Ret (total, false), st') => (Ret total, st')
    | (Exit code, st') => (Exit code, st')
    | (Raise e, st') => (Raise e, st')
    end.
Proof.
  rewrite Client.save_file_loop_equation_1.
  destruct (Logic.inspect (Client.save_file_turn E file total_bytes st))
    as [turn Hturn].
  transitivity
    (match turn with
     | (Ret (total, true), st') => Client.save_file_loop E file total st'
     | (Ret (total, false), st') => (Ret total, st')
     | (Exit code, st') => (Exit code, st')
     | (Raise e, st') => (Raise e, st')
     end); [|rewrite Hturn; reflexivity].
  destruct turn as [[[total []]|code|e] st']; reflexivity.
Qed.

(** One turn of the loop when the read brings [block]. *)
Lemma save_file_turn_block (E : env) (file : str) (total_bytes : N) (st st1 : state)
    (block : bytes) :
  sock_recv DATA_BLOCK_SIZE st = (Ret (Received block), st1) ->
  no_write_fault st ->
  Client.save_file_turn E file total_bytes st =
    (Ret (total_bytes + len block, 0 <? len block),
     State (sock_in st1) (sock_send_ok st)
           (alter (fun old => old ++ block) file (files st))
           (tail (write_faults st))
           (trace st ++ [Recv DATA_BLOCK_SIZE; Write block])).
Proof.
  intros Hrecv Hfaults.
  assert (Hst1 : sock_send_ok st1 = sock_send_ok st /\ files st1 = files st /\
                 write_faults st1 = write_faults st /\
                 trace st1 = trace st ++ [Recv DATA_BLOCK_SIZE]).
  { revert Hrecv. unfold sock_recv.
    destruct (sock_in st) as [|[bs| |] rest]; try discriminate.
    - intros [= _ <-]. auto.
    - destruct (len bs <=? DATA_BLOCK_SIZE); intros [= _ <-]; auto. }
  destruct Hst1 as (Hok & Hfiles & Hwf & Htrace).
  unfold Client.save_file_turn, Client.receive_data_block, bind.
  rewrite Hrecv. cbn [ret].
  unfold Client.write_to_file, file_write, bind.
  rewrite Hwf, Hok, Hfiles, Htrace.
  unfold no_write_fault in Hfaults.
  destruct (write_faults st) as [|[|kept] faults]; cbn.
  - rewrite <- app_assoc. reflexivity.
  - rewrite <- app_assoc. reflexivity.
  - inversion Hfaults; discriminate.
Qed.

(** The loop against a peer that sends [payload] and closes the stream:
    every byte is appended to the file and counted. *)
Lemma save_file_loop_incoming (E : env) (file : str) (payload : bytes) (st : state)
    (total_bytes : N) :
  incoming (sock_in st) = Some payload ->
  no_write_fault st ->
  exists st' evs,
    Client.save_file_loop E file total_bytes st =
      (Ret (total_bytes + len payload), st') /\
    sock_send_ok st' = sock_send_ok st /\
    files st' = alter (fun old => old ++ payload) file (files st) /\
    no_write_fault st' /\
    trace st' = trace st ++ evs /\
    Forall transfer_event evs.
Proof.
  remember (Client.pending (sock_in st)) as size eqn:Hsize.
  revert st payload total_bytes Hsize.
  induction size as [size IH] using lt_wf_ind.
  intros st payload total_bytes Hsize Hincoming Hfaults.
  assert (Htail : Forall (fun f => f = NoFault) (tail (write_faults st))).
  { unfold no_write_fault in Hfaults.
    destruct (write_faults st); [constructor | inversion Hfaults; assumption]. }
  assert (Hlast : forall st1 block,
             sock_recv DATA_BLOCK_SIZE st = (Ret (Received block), st1) ->
             block = [] -> payload = [] ->
             exists st' evs,
               Client.save_file_loop E file total_bytes st =
                 (Ret (total_bytes + len payload), st') /\
               sock_send_ok st' = sock_send_ok st /\
               files st' = alter (fun old => old ++ payload) file (files st) /\
               no_write_fault st' /\
               trace st' = trace st ++ evs /\
               Forall transfer_event evs).
  { intros st1 block Hrecv -> ->.
    rewrite save_file_loop_unfold,
      (save_file_turn_block E file total_bytes st st1 [] Hrecv Hfaults).
    cbn [len length N.of_nat N.ltb N.compare].
    eexists _, _. repeat apply conj; try reflexivity; [exact Htail|].
    constructor; [left; reflexivity|].
    constructor; [right; eexists; reflexivity | constructor]. }
  destruct (sock_in st) as [|[bs| |] rest] eqn:Hin; try discriminate.
  - injection Hincoming as <-.
    apply (Hlast (State [] (sock_send_ok st) (files st) (write_faults st)
                        (trace st ++ [Recv DATA_BLOCK_SIZE])) []); try reflexivity.
    unfold sock_recv. rewrite Hin. reflexivity.
  - pose proof (sock_recv_data DATA_BLOCK_SIZE st bs rest Hin) as Hrecv.
    destruct bs as [|b bs].
    { injection Hincoming as <-. eapply Hlast; [exact Hrecv | reflexivity..]. }
    cbn [incoming] in Hincoming.
    set (block := take (N.to_nat DATA_BLOCK_SIZE) (b :: bs)) in *.
    set (rest' := if len (b :: bs) <=? DATA_BLOCK_SIZE then rest
                  else Data (drop (N.to_nat DATA_BLOCK_SIZE) (b :: bs)) :: rest) in *.
    assert (Hpos : (0 <? len block) = true).
    { apply N.ltb_lt. subst block. rewrite len_take. unfold len, DATA_BLOCK_SIZE.
      cbn [length]. lia. }
    assert (Hnext : exists payload',
               incoming rest' = Some payload' /\ payload = block ++ payload' /\
               (Client.pending rest' < size)%nat).
    { subst rest' block size. cbn [Client.pending].
      destruct (incoming rest) as [tail_|] eqn:Htl; [|discriminate].
      injection Hincoming as <-.
      destruct (len (b :: bs) <=? DATA_BLOCK_SIZE) eqn:Hfit.
      - exists tail_. apply N.leb_le in Hfit. unfold len in Hfit.
        rewrite take_ge by lia. repeat apply conj; [assumption | reflexivity | lia].
      - apply N.leb_gt in Hfit. unfold len, DATA_BLOCK_SIZE in Hfit.
        exists (drop (N.to_nat DATA_BLOCK_SIZE) (b :: bs) ++ tail_).
        repeat apply conj.
        + cbn [incoming].
          destruct (drop (N.to_nat DATA_BLOCK_SIZE) (b :: bs)) eqn:Hdrop.
          * apply (f_equal length) in Hdrop. rewrite length_drop in Hdrop.
            unfold DATA_BLOCK_SIZE in Hdrop. cbn [length] in *. lia.
          * rewrite Htl. reflexivity.
        + rewrite app_assoc, take_drop. reflexivity.
        + cbn [Client.pending]. rewrite length_drop. unfold DATA_BLOCK_SIZE. lia. }
    destruct Hnext as (payload' & Hincoming' & -> & Hsmaller).
    rewrite save_file_loop_unfold,
      (save_file_turn_block E file total_bytes st _ block Hrecv Hfaults), Hpos.
    cbn [sock_in].
    match goal with
    | |- context [Client.save_file_loop E file _ ?s] => set (st1 := s)
    end.
    destruct (IH _ Hsmaller st1 payload' (total_bytes + len block) eq_refl
                Hincoming' Htail)
      as (st' & evs & Hloop & Hok & Hfiles & Hfaults' & Htrace & Hevs).
    exists st', (Recv DATA_BLOCK_SIZE :: Write block :: evs).
    repeat apply conj.
    + rewrite Hloop. f_equal. f_equal. unfold len. rewrite length_app. lia.
    + exact Hok.
    + rewrite Hfiles. subst st1. cbn [files].
      rewrite alter_alter_eq. apply alter_ext.
      intros old _. cbn. symmetry. apply app_assoc.
    + exact Hfaults'.
    + rewrite Htrace. subst st1. cbn [trace]. rewrite <- app_assoc. reflexivity.
    + constructor; [left; reflexivity|].
      constructor; [right; eexists; reflexivity | exact Hevs].
Qed.

(** [file.close()] when the storage takes what is still buffered. *)
Lemma file_close_flushed (name : str) (st : state) :
  no_write_fault st ->
  file_close name st =
    (Ret tt, State (sock_in st) (sock_send_ok st) (files st)
                   (tail (write_faults st)) (trace st ++ [CloseFile])).
Proof.
  unfold no_write_fault, file_close. intros Hfaults.
  destruct (write_faults st) as [|[|kept] faults]; try reflexivity.
  inversion Hfaults; discriminate.
Qed.

(** [save_file] against a peer that sends [payload] and closes the stream
    when the header declared another length: the mismatch is reported, the
    file is removed and the client exits. *)
Lemma save_file_mismatch (E : env) (filename : str) (header : bytes) (st : state)
    (payload : bytes) :
  creatable E filename = true ->
  incoming (sock_in st) = Some payload ->
  no_write_fault st ->
  len payload <> from_bytes (slice 4 8 header) ->
  exists st' evs,
    Client.save_file E filename header st = (Exit 1, st') /\
    Forall transfer_event evs /\
    trace st' = trace st ++ [OpenWrite filename; Print Downloading] ++ evs ++
      [CloseFile;
       Print (ByteCountMismatch (len payload) (from_bytes (slice 4 8 header)));
       Remove filename] ++
      (if removable E filename then [] else [Print RemoveFailed]) /\
    files st' = if removable E filename then delete filename (files st)
                else <[filename := payload]> (files st).
Proof.
  intros Hcreate Hincoming Hfaults Hne.
  set (st1 := State (sock_in st) (sock_send_ok st) (<[filename := []]> (files st))
                    (write_faults st)
                    ((trace st ++ [OpenWrite filename]) ++ [Print Downloading])).
  destruct (save_file_loop_incoming E filename payload st1 0 Hincoming Hfaults)
    as (st2 & evs & Hloop & _ & Hfiles & Hfaults2 & Htrace & Hevs).
  rewrite N.add_0_l in Hloop.
  assert (Hfile : files st2 = <[filename := payload]> (files st)).
  { rewrite Hfiles. subst st1. cbn [files]. rewrite alter_insert_eq. reflexivity. }
  apply N.eqb_neq in Hne. rewrite N.eqb_sym in Hne.
  assert (Hrun : Client.save_file E filename header st =
            (Client.remove_file E filename;; exit 1)
              (State (sock_in st2) (sock_send_ok st2) (files st2)
                 (tail (write_faults st2))
                 ((trace st2 ++ [CloseFile]) ++
                  [Print (ByteCountMismatch (len payload)
                            (from_bytes (slice 4 8 header)))]))).
  { unfold Client.save_file, open_write. unfold bind at 1. rewrite Hcreate.
    cbn [negb when]. unfold bind at 1. cbn [ret].
    cbv zeta. unfold bind at 1.
    cbn [print emit sock_in sock_send_ok files write_faults trace]. fold st1.
    unfold bind at 1. rewrite Hloop.
    unfold bind at 1. rewrite (file_close_flushed filename st2 Hfaults2).
    rewrite Hne. cbn [negb when].
    unfold bind at 1. unfold bind at 1. cbn [print emit].
    cbn [sock_in sock_send_ok files write_faults trace].
    unfold bind.
    destruct (Client.remove_file E filename _) as [[[]| |] ?]; reflexivity. }
  rewrite Hrun.
  unfold Client.remove_file, os_remove, bind, when, print, emit, exit.
  cbn [sock_in sock_send_ok files write_faults trace].
  rewrite Hfile, lookup_insert_eq.
  rewrite bool_decide_eq_true_2 by (eexists; reflexivity). cbn [andb].
  rewrite Htrace. subst st1. cbn [trace].
  destruct (removable E filename); cbn [negb ret];
    (eexists _, evs; repeat apply conj; [reflexivity | exact Hevs | | ]);
    cbn [trace files]; rewrite <- ?app_assoc; try reflexivity.
  apply delete_insert_eq.
Qed.

(** What is still to come once [save_file] has read one block of a stream
    that opens with a non-empty segment. *)
Lemma incoming_block (b : byte) (bs : bytes) (rest : list recv_event)
    (payload : bytes) :
  incoming (Data (b :: bs) :: rest) = Some payload ->
  exists later,
    incoming (if len (b :: bs) <=? DATA_BLOCK_SIZE then rest
              else Data (drop (N.to_nat DATA_BLOCK_SIZE) (b :: bs)) :: rest)
      = Some later /\
    payload = take (N.to_nat DATA_BLOCK_SIZE) (b :: bs) ++ later.
Proof.
  cbn [incoming]. intros Hincoming.
  destruct (incoming rest) as [tail_|] eqn:Htl; [|discriminate].
  injection Hincoming as <-.
  destruct (len (b :: bs) <=? DATA_BLOCK_SIZE) eqn:Hfit.
  - exists tail_. apply N.leb_le in Hfit. unfold len in Hfit.
    rewrite take_ge by lia. split; [assumption | reflexivity].
  - apply N.leb_gt in Hfit. unfold len, DATA_BLOCK_SIZE in Hfit.
    exists (drop (N.to_nat DATA_BLOCK_SIZE) (b :: bs) ++ tail_). split.
    + cbn [incoming].
      destruct (drop (N.to_nat DATA_BLOCK_SIZE) (b :: bs)) eqn:Hdrop.
      * apply (f_equal length) in Hdrop. rewrite length_drop in Hdrop.
        unfold DATA_BLOCK_SIZE in Hdrop. cbn [length] in *. lia.
      * rewrite Htl. reflexivity.
    + rewrite app_assoc, take_drop. reflexivity.
Qed.

(** [remove_file] always returns: a removal that fails is only reported. *)
Lemma remove_file_returns (E : env) (file : str) (st : state) :
  exists st', Client.remove_file E file st = (Ret tt, st').
Proof.
  unfold Client.remove_file, os_remove, bind, when, print, emit, ret.
  destruct (_ && _); cbn [negb]; eexists; reflexivity.
Qed.

(** [write_to_file] returns or exits with status 1, and leaves the socket
    alone. *)
Lemma write_to_file_ends (E : env) (file : str) (data : bytes) (st st' : state)
    (r : outcome unit) :
  Client.write_to_file E file data st = (r, st') ->
  sock_in st' = sock_in st /\
  match r with
  | Ret _ => True
  | Exit code => code = 1%Z
  | Raise _ => False
  end.
Proof.
  unfold Client.write_to_file, file_write, Client.remove_file, os_remove, bind,
    when, print, emit, exit, ret.
  destruct (write_faults st) as [|[|kept] faults]; simpl;
    repeat (match goal with
            | |- context [if ?c then _ else _] => destruct c
            end; simpl);
    intros [= <- <-]; auto.
Qed.

(** One turn of the loop while the peer keeps sending, whatever the storage
    does: the block is counted, or the client exits with status 1. *)
Lemma save_file_turn_counts (E : env) (file : str) (total_bytes : N)
    (st st1 : state) (payload : bytes) (r : outcome (N * bool)) :
  incoming (sock_in st) = Some payload ->
  Client.save_file_turn E file total_bytes st = (r, st1) ->
  match r with
  | Ret (total, again) =>
      exists block later,
        payload = block ++ later /\ total = total_bytes + len block /\
        if again then incoming (sock_in st1) = Some later else payload = []
  | Exit code => code = 1%Z
  | Raise _ => False
  end.
Proof.
  intros Hincoming.
  assert (Hwrite : forall s block later,
             payload = block ++ later ->
             (if 0 <? len block then incoming (sock_in s) = Some later
              else payload = []) ->
             (Client.write_to_file E file block;;
              ret (total_bytes + len block, 0 <? len block)) s = (r, st1) ->
             match r with
             | Ret (total, again) =>
                 exists block later,
                   payload = block ++ later /\ total = total_bytes + len block /\
                   if again then incoming (sock_in st1) = Some later else payload = []
             | Exit code => code = 1%Z
             | Raise _ => False
             end).
  { intros s block later Hsplit Hnext. unfold bind.
    destruct (Client.write_to_file E file block s) as [rw sw] eqn:Hw.
    destruct (write_to_file_ends E file block s sw rw Hw) as [Hsock Hcase].
    destruct rw as [[]|code|e]; intros [= <- <-].
    - exists block, later. rewrite Hsock. auto.
    - exact Hcase.
    - exact Hcase. }
  unfold Client.save_file_turn, Client.receive_data_block. unfold bind at 1.
  unfold bind at 1.
  destruct (sock_in st) as [|[[|b bs]| |] rest] eqn:Hin; try discriminate.
  - injection Hincoming as <-.
    unfold sock_recv. rewrite Hin. cbn [ret].
    apply (Hwrite _ [] []); reflexivity.
  - injection Hincoming as <-.
    rewrite (sock_recv_data DATA_BLOCK_SIZE st [] rest Hin). cbn [ret].
    apply (Hwrite _ [] []); reflexivity.
  - destruct (incoming_block b bs rest payload Hincoming) as (later & Hlater & Hsplit).
    rewrite (sock_recv_data DATA_BLOCK_SIZE st (b :: bs) rest Hin). cbn [ret].
    apply (Hwrite _ _ later Hsplit).
    replace (0 <? len (take (N.to_nat DATA_BLOCK_SIZE) (b :: bs))) with true.
    + exact Hlater.
    + symmetry. apply N.ltb_lt. rewrite len_take. unfold len, DATA_BLOCK_SIZE.
      cbn [length]. lia.
Qed.

(** The loop against a peer that sends [payload] and closes the stream,
    whatever the storage does: the loop returns the count of all of
    [payload], or the client exits with status 1. *)
Lemma save_file_loop_counts (E : env) (file : str) (total_bytes : N) (st : state) :
  forall (payload : bytes) (r : outcome N) (st' : state),
    incoming (sock_in st) = Some payload ->
    Client.save_file_loop E file total_bytes st = (r, st') ->
    match r with
    | Ret total => total = total_bytes + len payload
    | Exit code => code = 1%Z
    | Raise _ => False
    end.
Proof.
  funelim (Client.save_file_loop E file total_bytes st);
    intros payload r st2 Hincoming Hrun;
    match goal with
    | Hturn : Client.save_file_turn _ _ _ _ = _ |- _ =>
        pose proof (save_file_turn_counts _ _ _ _ _ payload _ Hincoming Hturn)
          as Hcase
    end.
  - destruct Hcase as (block & later & -> & -> & Hlater).
    match goal with
    | IH : forall payload r st', _ -> Client.save_file_loop _ _ _ _ = _ -> _ |- _ =>
        pose proof (IH _ _ _ Hlater Hrun) as Hcase'
    end.
    destruct r as [total'|code|err]; [|exact Hcase' | exact Hcase'].
    rewrite Hcase'. unfold len. rewrite length_app. lia.
  - injection Hrun as <- <-.
    destruct Hcase as (block & later & Hsplit & -> & ->).
    destruct block; [reflexivity | discriminate].
  - injection Hrun as <- <-. exact Hcase.
  - injection Hrun as <- <-. exact Hcase.
Qed.

(** [save_file] never returns a count that differs from DataLen: when the
    peer sends [payload] and closes the stream and the header declared
    another length, [save_file] does not return, whatever the file system
    does. *)
Lemma save_file_never_returns_mismatch (E : env) (filename : str) (header : bytes)
    (st : state) (payload : bytes) :
  incoming (sock_in st) = Some payload ->
  len payload <> from_bytes (slice 4 8 header) ->
  forall total, fst (Client.save_file E filename header st) <> Ret total.
Proof.
  intros Hincoming Hne total.
  unfold Client.save_file, open_write. unfold bind at 1.
  destruct (creatable E filename); cbn [negb when].
  2:{ unfold bind. cbn. discriminate. }
  intros Hret. revert Hret.
  unfold bind at 1. cbn [ret]. cbv zeta. unfold bind at 1.
  cbn [print emit sock_in sock_send_ok files write_faults trace].
  unfold bind at 1.
  match goal with
  | |- context [Client.save_file_loop E filename 0 ?s] =>
      destruct (Client.save_file_loop E filename 0 s) as [r2 st2] eqn:Hloop;
      pose proof (save_file_loop_counts E filename 0 s payload r2 st2
                    Hincoming Hloop) as Hcase
  end.
  destruct r2 as [total2|code|e]; [|cbn [fst]; discriminate..].
  rewrite N.add_0_l in Hcase. subst total2.
  unfold bind at 1, file_close.
  apply N.eqb_neq in Hne. rewrite N.eqb_sym in Hne.
  destruct (write_faults st2) as [|[|kept] faults]; cbn [tail fst];
    try discriminate;
    rewrite Hne; cbn [negb when];
    unfold bind at 1; unfold bind at 1; cbn [print emit];
    match goal with
    | |- context [bind (Client.remove_file E filename) _ ?s] =>
        destruct (remove_file_returns E filename s) as [s3 Hrm]
    end;
    unfold bind; rewrite Hrm; cbn; discriminate.
Qed.

(** C3, as stated, fails: when [os.remove] fails, [remove_file] only prints
    that the file could not be removed, and the client exits with status 1
    leaving the partial file of the short delivery behind. *)
Lemma short_delivery_survives_failed_remove :
  let run := Client.save_file unremovable [102]
               [x49; x7e; x02; x01; x00; x00; x00; x05] (fresh [Data [x68; x69]]) in
  fst run = Exit 1 /\
  files (snd run) !! [102] = Some [x68; x69] /\
  trace (snd run) =
    [OpenWrite [102]; Print Downloading;
     Recv DATA_BLOCK_SIZE; Write [x68; x69]; Recv DATA_BLOCK_SIZE; Write [];
     CloseFile; Print (ByteCountMismatch 2 5); Remove [102]; Print RemoveFailed].
Proof. repeat split. Qed.

(** C3 (amended): when the header declares more bytes than the peer sends
    before it closes the stream, and the destination is created, written and
    closed without a storage error, [save_file] reports the two counts,
    calls [os.remove] on the destination and exits with status 1.  The
    partial file is gone when the removal succeeds; when it fails, that is
    reported too and the partial file stays. *)
Theorem short_delivery_removes_file (E : env) (filename : str) (header : bytes)
    (st : state) (payload : bytes) :
  creatable E filename = true ->
  incoming (sock_in st) = Some payload ->
  no_write_fault st ->
  len payload < from_bytes (slice 4 8 header) ->
  exists st' evs,
    Client.save_file E filename header st = (Exit 1, st') /\
    Forall transfer_event evs /\
    trace st' = trace st ++ [OpenWrite filename; Print Downloading] ++ evs ++
      [CloseFile;
       Print (ByteCountMismatch (len payload) (from_bytes (slice 4 8 header)));
       Remove filename] ++
      (if removable E filename then [] else [Print RemoveFailed]) /\
    files st' = if removable E filename then delete filename (files st)
                else <[filename := payload]> (files st).
Proof.
  intros Hcreate Hincoming Hfaults Hshort.
  apply (save_file_mismatch E filename header st payload Hcreate Hincoming Hfaults).
  lia.
Qed.

Lemma short_delivery_removes_file_witness :
  exists st',
    Client.save_file obliging [102] [x49; x7e; x02; x01; x00; x00; x00; x05]
      (fresh [Data [x68; x69]]) = (Exit 1, st') /\
    files st' !! [102] = None.
Proof.
  destruct (short_delivery_removes_file obliging [102]
              [x49; x7e; x02; x01; x00; x00; x00; x05]
              (fresh [Data [x68; x69]]) [x68; x69])
    as (st' & evs & Hrun & _ & _ & Hfiles).
  - reflexivity.
  - reflexivity.
  - constructor.
  - reflexivity.
  - exists st'. split; [exact Hrun | rewrite Hfiles; reflexivity].
Defined.

(** C10, as stated, fails: when [os.remove] fails, [remove_file] only
    prints that the file could not be removed, and the client exits with
    status 1 leaving the file of the over-delivery behind, surplus bytes
    included. *)
Lemma over_delivery_survives_failed_remove :
  let run := Client.save_file unremovable [102]
               [x49; x7e; x02; x01; x00; x00; x00; x01] (fresh [Data [x68; x69]]) in
  fst run = Exit 1 /\
  files (snd run) !! [102] = Some [x68; x69] /\
  trace (snd run) =
    [OpenWrite [102]; Print Downloading;
     Recv DATA_BLOCK_SIZE; Write [x68; x69]; Recv DATA_BLOCK_SIZE; Write [];
     CloseFile; Print (ByteCountMismatch 2 1); Remove [102]; Print RemoveFailed].
Proof. repeat split. Qed.

(** C10 (amended): the check is symmetric.  When the peer sends more bytes
    than the header declares, [save_file] never returns, whatever the file
    system does.  When the destination is created, written and closed
    without a storage error, [save_file] reports the two counts, calls
    [os.remove] on the destination and exits with status 1; the file is gone
    when the removal succeeds, and when it fails that is reported too and
    the file stays. *)
Theorem over_delivery_removes_file (E : env) (filename : str) (header : bytes)
    (st : state) (payload : bytes) :
  incoming (sock_in st) = Some payload ->
  from_bytes (slice 4 8 header) < len payload ->
  (forall total, fst (Client.save_file E filename header st) <> Ret total) /\
  (creatable E filename = true ->
   no_write_fault st ->
   exists st' evs,
     Client.save_file E filename header st = (Exit 1, st') /\
     Forall transfer_event evs /\
     trace st' = trace st ++ [OpenWrite filename; Print Downloading] ++ evs ++
       [CloseFile;
        Print (ByteCountMismatch (len payload) (from_bytes (slice 4 8 header)));
        Remove filename] ++
       (if removable E filename then [] else [Print RemoveFailed]) /\
     files st' = if removable E filename then delete filename (files st)
                 else <[filename := payload]> (files st)).
Proof.
  intros Hincoming Hlong. split.
  - apply (save_file_never_returns_mismatch E filename header st payload Hincoming).
    lia.
  - intros Hcreate Hfaults.
    apply (save_file_mismatch E filename header st payload Hcreate Hincoming Hfaults).
    lia.
Qed.

Lemma over_delivery_removes_file_witness :
  exists st',
    Client.save_file obliging [102] [x49; x7e; x02; x01; x00; x00; x00; x01]
      (fresh [Data [x68; x69]]) = (Exit 1, st') /\
    files st' !! [102] = None.
Proof.
  destruct (over_delivery_removes_file obliging [102]
              [x49; x7e; x02; x01; x00; x00; x00; x01]
              (fresh [Data [x68; x69]]) [x68; x69])
    as [_ Hrun].
  - reflexivity.
  - reflexivity.
  - destruct Hrun as (st' & evs & Hrun & _ & _ & Hfiles).
    + reflexivity.
    + constructor.
    + exists st'. split; [exact Hrun | rewrite Hfiles; reflexivity].
Defined.

(** ** The client's check of the destination file *)

(** C9: with a well-formed command line, [arguemnt_check] refuses (prints
    and exits, before any socket is touched) exactly when the destination
    names an existing file that opens for reading; a file that exists and
    does not open is no obstacle. *)
Theorem overwrite_refused_iff_openable (E : env) (argv : list str) (st : state)
    (ip : str) (port : Z) :
  length argv = 4%nat ->
  getaddrinfo E (argv !!! 1%nat) = Some ip ->
  str_isdigit E (argv !!! 2%nat) = true ->
  str_to_int E (argv !!! 2%nat) = Some port ->
  (MIN_PORT <= port <= MAX_PORT)%Z ->
  let filename := argv !!! 3%nat in
  let openable :=
    bool_decide (is_Some (files st !! filename)) && readable E filename in
  let refused :=
    State (sock_in st) (sock_send_ok st) (files st) (write_faults st)
          (trace st ++ [Print FileAlreadyExists]) in
  Client.arguemnt_check E argv st =
    (if openable then (Exit 1, refused) else (Ret (ip, port, filename), st)) /\
  (openable = true -> Client.main E argv st = (Exit 1, refused)).
Proof.
  intros Hargc Hip Hdigit Hint Hrange filename openable refused.
  assert (Hcheck : Client.arguemnt_check E argv st =
            (if openable then (Exit 1, refused) else (Ret (ip, port, filename), st))).
  { unfold Client.arguemnt_check.
    rewrite Hargc, Hip, Hdigit, Hint. fold filename.
    replace ((port <? MIN_PORT) || (MAX_PORT <? port))%Z with false
      by (symmetry; apply orb_false_intro; apply Z.ltb_ge; lia).
    unfold bind, when, ret, isfile, open_read, print, emit, exit.
    cbn [Nat.eqb negb].
    subst openable refused.
    destruct (files st !! filename) as [contents|] eqn:Hfile.
    - rewrite bool_decide_eq_true_2 by (eexists; reflexivity).
      cbn [andb]. rewrite Hfile.
      destruct (readable E filename); reflexivity.
    - rewrite bool_decide_eq_false_2 by (intros [? [=]]). reflexivity. }
  split; [exact Hcheck|].
  intros Hopen. unfold Client.main, bind. rewrite Hcheck, Hopen. reflexivity.
Qed.

Lemma overwrite_refused_iff_openable_witness :
  Client.arguemnt_check obliging a_command_line beside_f =
    (Exit 1, State [] true {[ [102] := [x68; x69] ]} [] [Print FileAlreadyExists]) /\
  Client.arguemnt_check unreadable a_command_line beside_f =
    (Ret ([104], 5000%Z, [102]), beside_f).
Proof.
  split.
  - apply (overwrite_refused_iff_openable obliging a_command_line beside_f
             [104] 5000%Z); try reflexivity.
    vm_compute. split; discriminate.
  - apply (overwrite_refused_iff_openable unreadable a_command_line beside_f
             [104] 5000%Z); try reflexivity.
    vm_compute. split; discriminate.
Defined.

(** ** Two runs on which the programs miss the specification *)

(** C2 at the filename "é" (U+00E9): the client sends its two UTF-8 bytes,
    the server accepts the header, reads both bytes, and turns each byte into
    a character of its own: the name it looks up is "Ã©". *)
Theorem non_ascii_filename_is_garbled :
  exists request,
    Client.construct_request [233] = Ret request /\
    request = [x49; x7e; x01; x00; x02; xc3; xa9] /\
    fst (decode_request (fresh [Data request])) = Ret (true, 2, Some [195; 169]).
Proof. eexists. repeat apply conj; reflexivity. Qed.

(** C8 at a response header cut short after its StatusCode byte: the four
    bytes pass [validate_header] and [check_status_code], DataLen is read as
    0, the destination file is created and the run ends as a successful
    download of no bytes. *)
Theorem short_header_enters_transfer :
  let run := Client.main obliging a_command_line
               (fresh [Data [x49; x7e; x02; x01]]) in
  fst run = Ret tt /\
  trace (snd run) =
    [Connect; SendAll [x49; x7e; x01; x00; x01; x66];
     Recv RESPONSE_HEADER_LEN; OpenWrite [102]; Print Downloading;
     Recv DATA_BLOCK_SIZE; Write []; CloseFile; Print (Downloaded [102] 0);
     CloseSocket] /\
  files (snd run) !! [102] = Some [].
Proof. vm_compute. repeat apply conj; reflexivity. Qed.

(** ** What the two findings leave standing *)

Lemma encode_ascii (filename : str) :
  Forall (fun c => c < 128) filename ->
  encode filename = Ret (map byte_of_N filename).
Proof.
  induction 1 as [|c filename Hc _ IH]; [reflexivity|].
  cbn [encode map]. unfold utf8_char.
  apply N.ltb_lt in Hc. change 0x80 with 128. rewrite Hc, IH. reflexivity.
Qed.

Lemma chr_byte_of_N_ascii (filename : str) :
  Forall (fun c => c < 128) filename ->
  map chr (map byte_of_N filename) = filename.
Proof.
  induction 1 as [|c filename Hc _ IH]; [reflexivity|].
  cbn [map]. rewrite IH. unfold chr. rewrite to_N_byte_of_N.
  rewrite N.mod_small by lia. reflexivity.
Qed.

(** The server's header read when the whole request arrives at once: the
    filename stays queued. *)
Lemma get_header_whole_request (hi lo : byte) (payload : bytes) :
  0 < len payload ->
  Server.get_header (fresh [Data (x49 :: x7e :: x01 :: hi :: lo :: payload)]) =
    (Ret [x49; x7e; x01; hi; lo],
     State [Data payload] true ∅ [] [Recv REQUEST_HEADER_LEN]).
Proof.
  intros Hpos. unfold Server.get_header, bind.
  rewrite (sock_recv_data REQUEST_HEADER_LEN
             (fresh [Data (x49 :: x7e :: x01 :: hi :: lo :: payload)])
             (x49 :: x7e :: x01 :: hi :: lo :: payload) [] eq_refl).
  replace (len (x49 :: x7e :: x01 :: hi :: lo :: payload) <=? REQUEST_HEADER_LEN)
    with false.
  - reflexivity.
  - symmetry. apply N.leb_gt. unfold len in *.
    cbn [length]. unfold REQUEST_HEADER_LEN. lia.
Qed.

(** The round trip of C2 does hold for ASCII filenames: the server decodes
    the name the client encoded, and its length. *)
Lemma ascii_filename_round_trip (filename : str) :
  Forall (fun c => c < 128) filename ->
  1 <= len filename <= 1024 ->
  exists request,
    Client.construct_request filename = Ret request /\
    fst (decode_request (fresh [Data request])) =
      Ret (true, len filename, Some filename).
Proof.
  intros Hascii Hlen.
  set (payload := map byte_of_N filename).
  assert (Hpayload : len payload = len filename).
  { unfold len, payload. rewrite length_map. reflexivity. }
  destruct (to_bytes_ret 2 (len payload)) as [Hfield Hvalue].
  { rewrite Hpayload. change (256 ^ N.of_nat 2) with 65536. lia. }
  exists ([x49; x7e; x01] ++ be_digits 2 (len payload) ++ payload). split.
  - unfold Client.construct_request.
    rewrite magic_bytes, (encode_ascii filename Hascii).
    cbn [and_then]. fold payload. rewrite Hfield. reflexivity.
  - cbn [be_digits app] in *.
    set (hi := byte_of_N (len payload / 256 ^ N.of_nat 1)) in *.
    set (lo := byte_of_N (len payload / 256 ^ N.of_nat 0)) in *.
    unfold decode_request, bind.
    rewrite (get_header_whole_request hi lo payload) by lia.
    assert (Hverdict : forall s,
               Server.is_valid_header [x49; x7e; x01; hi; lo] s = (Ret true, s)).
    { apply (is_valid_header_true _ (fresh [])).
      unfold Server.is_valid_header, index, bind, ret. cbn [len length].
      change (slice 3 5 [x49; x7e; x01; hi; lo]) with [hi; lo].
      rewrite Hvalue, Hpayload.
      replace (len filename <? MIN_FILENAME_LEN) with false
        by (symmetry; apply N.ltb_ge; unfold MIN_FILENAME_LEN; lia).
      replace (MAX_FILENAME_LEN <? len filename) with false
        by (symmetry; apply N.ltb_ge; unfold MAX_FILENAME_LEN; lia).
      reflexivity. }
    rewrite Hverdict.
    match goal with
    | |- context [Server.get_filename ?h ?s] =>
        destruct (get_filename_arrived h s payload eq_refl) as (st2 & Hname & _)
    end.
    change (drop 3 [x49; x7e; x01; hi; lo]) with [hi; lo] in *.
    rewrite Hvalue, N.eqb_refl in Hname.
    rewrite Hname. cbn [ret fst]. rewrite Hvalue, Hpayload.
    unfold payload. rewrite (chr_byte_of_N_ascii filename Hascii). reflexivity.
Qed.

(** Of the failures C8 lists, a timeout or an error of the header read and a
    header of no bytes do end the client with a message and status 1. *)
Lemma response_header_failures (st : state) :
  (forall ev rest,
      sock_in st = ev :: rest ->
      ev = Timeout \/ ev = Failure ->
      exists m st',
        Client.get_header st = (Exit 1, st') /\
        trace st' = trace st ++ [Recv RESPONSE_HEADER_LEN; Print m]) /\
  (exists st',
      Client.validate_header [] st = (Exit 1, st') /\
      trace st' = trace st ++ [Print NoResponseHeader]).
Proof.
  split.
  - intros ev rest Hin [-> | ->];
      unfold Client.get_header, bind, sock_recv; rewrite Hin; cbn;
      eexists _, _; (split; [reflexivity|]);
      cbn; rewrite <- app_assoc; reflexivity.
  - eexists. split; reflexivity.
Qed.

(** A request header cut short after a valid magic number is neither
    accepted nor rejected: [is_valid_header] raises IndexError at
    [header[2]], nothing catches it, and the server stops. *)
Lemma truncated_request_header_stops_server :
  let run := Server.serve obliging
               [Some (Connection [Data [x49; x7e]] true); None] (fresh []) in
  fst run = Raise IndexError /\
  trace (snd run) =
    [Print Blank; Accept; Print ConnectionInfo; Recv REQUEST_HEADER_LEN;
     CloseSocket].
Proof. split; reflexivity. Qed.

(** * Further properties of the two programs *)

(** ** The client's destination file *)

(** [remove_file] on an existing file: it returns, the file is gone when
    the removal is allowed, and no other file changes. *)
Lemma remove_file_existing (E : env) (file : str) (st : state) (old : bytes) :
  files st !! file = Some old ->
  exists st',
    Client.remove_file E file st = (Ret tt, st') /\
    sock_in st' = sock_in st /\
    (removable E file = true -> files st' !! file = None) /\
    (forall other, other <> file -> files st' !! other = files st !! other).
Proof.
  intros Hfile.
  unfold Client.remove_file, os_remove, bind, when, print, emit, ret.
  rewrite Hfile, bool_decide_eq_true_2 by (eexists; reflexivity).
  cbn [andb].
  destruct (removable E file); cbn [negb]; eexists;
    (repeat apply conj; [reflexivity | reflexivity | | ]); cbn [files].
  - intros _. apply lookup_delete_eq.
  - intros other Hother. apply lookup_delete_ne. congruence.
  - discriminate.
  - reflexivity.
Qed.

(** One turn of the transfer loop, whatever the socket and the storage do:
    a block is appended to the file and counted, or the file is removed and
    the client exits with status 1, or a [file.close()] that the storage
    refuses raises and leaves the file behind.  No other file changes. *)
Lemma save_file_turn_cases (E : env) (file : str) (total_bytes : N) (st st1 : state)
    (old : bytes) (r : outcome (N * bool)) :
  files st !! file = Some old ->
  Client.save_file_turn E file total_bytes st = (r, st1) ->
  (forall other, other <> file -> files st1 !! other = files st !! other) /\
  match r with
  | Ret (total, _) =>
      exists block,
        total = total_bytes + len block /\ files st1 !! file = Some (old ++ block) /\
        (no_write_fault st -> no_write_fault st1)
  | Exit code =>
      code = 1%Z /\ (removable E file = true -> files st1 !! file = None)
  | Raise e =>
      e = OSError /\ is_Some (files st1 !! file) /\ ~ no_write_fault st /\
      last (trace st1) = Some CloseFile
  end.
Proof.
  intros Hfile.
  unfold Client.save_file_turn, Client.receive_data_block. unfold bind at 1.
  unfold bind at 1.
  destruct (sock_recv DATA_BLOCK_SIZE st) as [r0 st0] eqn:Hrecv.
  destruct (sock_recv_frame _ _ _ _ Hrecv) as (_ & Hfiles0 & Hfaults0 & _).
  assert (Hr0 : exists res, r0 = Ret res).
  { revert Hrecv. unfold sock_recv.
    destruct (sock_in st) as [|[bs| |] rest];
      [| destruct (len bs <=? DATA_BLOCK_SIZE) | |]; intros [= <- _]; eauto. }
  destruct Hr0 as [res ->].
  assert (Hfailed : forall s : state,
             files s = files st -> write_faults s = write_faults st ->
             forall (r1 : outcome (N * bool)) s1,
               (file_close file;; Client.remove_file E file;; exit 1) s = (r1, s1) ->
               (forall other, other <> file -> files s1 !! other = files st !! other) /\
               match r1 with
               | Ret _ => False
               | Exit code =>
                   code = 1%Z /\ (removable E file = true -> files s1 !! file = None)
               | Raise e =>
                   e = OSError /\ is_Some (files s1 !! file) /\ ~ no_write_fault st /\
                   last (trace s1) = Some CloseFile
               end).
  { intros s Hs Hwf r1 s1. unfold bind at 1, file_close. rewrite Hwf.
    assert (Hremove : forall faults,
               (let (o, st') :=
                  (Ret tt, State (sock_in s) (sock_send_ok s) (files s) faults
                                 (trace s ++ [CloseFile])) in
                match o with
                | Ret a => (Client.remove_file E file;; exit 1) st'
                | Exit code => (Exit code, st')
                | Raise e => (Raise e, st')
                end) = (r1, s1) ->
               (forall other, other <> file -> files s1 !! other = files st !! other) /\
               match r1 with
               | Ret _ => False
               | Exit code =>
                   code = 1%Z /\ (removable E file = true -> files s1 !! file = None)
               | Raise e =>
                   e = OSError /\ is_Some (files s1 !! file) /\ ~ no_write_fault st /\
                   last (trace s1) = Some CloseFile
               end).
    { intros faults.
      match goal with
      | |- context [bind _ _ ?s'] =>
          destruct (remove_file_existing E file s' old) as (s2 & Hrm & _ & Hgone & Hframe)
      end.
      { cbn [files]. rewrite Hs. exact Hfile. }
      unfold bind. rewrite Hrm. unfold exit. intros [= <- <-].
      repeat apply conj; [|reflexivity | exact Hgone].
      intros other Hother. rewrite (Hframe other Hother). cbn [files].
      rewrite Hs. reflexivity. }
    destruct (write_faults st) as [|[|kept] faults] eqn:Hst; cbn [tail].
    - apply Hremove.
    - apply Hremove.
    - intros [= <- <-]. cbn [files trace]. repeat apply conj.
      + intros other Hother. rewrite lookup_alter_ne by congruence.
        rewrite Hs. reflexivity.
      + reflexivity.
      + rewrite lookup_alter_eq, Hs, Hfile. eexists. reflexivity.
      + unfold no_write_fault. rewrite Hst. intros Hnone.
        inversion Hnone; discriminate.
      + apply last_snoc. }
  destruct res as [block| |]; cbn [ret print emit].
  - unfold Client.write_to_file, file_write. unfold bind at 1. unfold bind at 1.
    rewrite Hfaults0, Hfiles0. unfold no_write_fault.
    destruct (write_faults st) as [|[|kept] faults]; cbn [negb when ret tail].
    + intros [= <- <-]. cbn [files write_faults]. split.
      * intros other Hother. apply lookup_alter_ne. congruence.
      * exists block. repeat apply conj; [reflexivity | | auto].
        rewrite lookup_alter_eq, Hfile. reflexivity.
    + intros [= <- <-]. cbn [files write_faults]. split.
      * intros other Hother. apply lookup_alter_ne. congruence.
      * exists block. repeat apply conj; [reflexivity | |].
        -- rewrite lookup_alter_eq, Hfile. reflexivity.
        -- intros Hnone. inversion Hnone; assumption.
    + unfold bind at 1. cbn [print emit].
      match goal with
      | |- context [bind (Client.remove_file E file) _ ?s'] =>
          destruct (remove_file_existing E file s' (take kept (old ++ block)))
            as (s2 & Hrm & _ & Hgone & Hframe)
      end.
      { cbn [files]. rewrite lookup_alter_eq, Hfile. reflexivity. }
      unfold bind. rewrite Hrm. unfold exit. intros [= <- <-].
      repeat apply conj; [| reflexivity | exact Hgone].
      intros other Hother. rewrite (Hframe other Hother). cbn [files].
      apply lookup_alter_ne. congruence.
  - intros Hrun.
    destruct (Hfailed (State (sock_in st0) (sock_send_ok st0) (files st0)
                             (write_faults st0)
                             (trace st0 ++ [Print SocketTimedOut]))
                Hfiles0 Hfaults0 _ _ Hrun) as (Hframe & Hcase).
    split; [exact Hframe|]. destruct r as [[]| |]; [destruct Hcase | exact Hcase..].
  - intros Hrun.
    destruct (Hfailed (State (sock_in st0) (sock_send_ok st0) (files st0)
                             (write_faults st0)
                             (trace st0 ++ [Print ReadFailed]))
                Hfiles0 Hfaults0 _ _ Hrun) as (Hframe & Hcase).
    split; [exact Hframe|]. destruct r as [[]| |]; [destruct Hcase | exact Hcase..].
Qed.

(** The whole loop, whatever the socket and the storage do: it returns the
    count of the bytes it appended to the file, or the file is removed and
    the client exits with status 1, or a [file.close()] that the storage
    refuses raises and leaves the file behind. *)
Lemma save_file_loop_cases (E : env) (file : str) (total_bytes : N) (st : state) :
  forall (old : bytes) (r : outcome N) (st' : state),
    files st !! file = Some old ->
    Client.save_file_loop E file total_bytes st = (r, st') ->
    (forall other, other <> file -> files st' !! other = files st !! other) /\
    match r with
    | Ret total =>
        exists written,
          total = total_bytes + len written /\
          files st' !! file = Some (old ++ written) /\
          (no_write_fault st -> no_write_fault st')
    | Exit code =>
        code = 1%Z /\ (removable E file = true -> files st' !! file = None)
    | Raise e =>
        e = OSError /\ is_Some (files st' !! file) /\ ~ no_write_fault st /\
        last (trace st') = Some CloseFile
    end.
Proof.
  funelim (Client.save_file_loop E file total_bytes st);
    intros old r st2 Hfile Hrun;
    match goal with
    | Hturn : Client.save_file_turn _ _ _ _ = _ |- _ =>
        pose proof (save_file_turn_cases _ _ _ _ _ old _ Hfile Hturn)
          as [Hframe Hcase]
    end.
  - destruct Hcase as (block & -> & Hfile1 & Hfaults1).
    match goal with
    | IH : forall old r st', _ -> Client.save_file_loop _ _ _ _ = _ -> _ |- _ =>
        destruct (IH _ _ _ Hfile1 Hrun) as [Hframe' Hcase']
    end.
    split.
    + intros other Hother. rewrite (Hframe' other Hother). auto.
    + destruct r as [total'|code|err]; [|exact Hcase' |].
      * destruct Hcase' as (written & -> & Hfile2 & Hfaults2).
        exists (block ++ written). repeat apply conj.
        -- unfold len. rewrite length_app. lia.
        -- rewrite Hfile2, app_assoc. reflexivity.
        -- auto.
      * destruct Hcase' as (-> & Hleft & Hfault & Hlast).
        repeat apply conj; [reflexivity | assumption | | assumption].
        intros Hnone. apply Hfault, Hfaults1, Hnone.
  - injection Hrun as <- <-. split; [exact Hframe|].
    destruct Hcase as (block & -> & Hfile1 & Hfaults1). eauto.
  - injection Hrun as <- <-. split; [exact Hframe | exact Hcase].
  - injection Hrun as <- <-. split; [exact Hframe | exact Hcase].
Qed.

(** [save_file] once the destination has been created, whatever the peer
    sends and whatever goes wrong. *)
Lemma save_file_created (E : env) (filename : str) (header : bytes)
    (st st' : state) (r : outcome N) :
  creatable E filename = true ->
  Client.save_file E filename header st = (r, st') ->
  (forall other, other <> filename -> files st' !! other = files st !! other) /\
  match r with
  | Ret total =>
      total = from_bytes (slice 4 8 header) /\
      exists contents, files st' !! filename = Some contents /\ len contents = total
  | Exit code =>
      code = 1%Z /\ (removable E filename = true -> files st' !! filename = None)
  | Raise e =>
      e = OSError /\ is_Some (files st' !! filename) /\ ~ no_write_fault st /\
      last (trace st') = Some CloseFile
  end.
Proof.
  intros Hcreate.
  unfold Client.save_file, open_write. unfold bind at 1. rewrite Hcreate.
  cbn [negb when]. unfold bind at 1. cbn [ret]. cbv zeta.
  unfold bind at 1. cbn [print emit sock_in sock_send_ok files write_faults trace].
  set (st1 := State _ _ _ _ _).
  assert (Hfile1 : files st1 !! filename = Some []) by apply lookup_insert_eq.
  assert (Hframe1 : forall other, other <> filename ->
                      files st1 !! other = files st !! other).
  { intros other Hother. apply lookup_insert_ne. congruence. }
  unfold bind at 1.
  destruct (Client.save_file_loop E filename 0 st1) as [r2 st2] eqn:Hloop.
  destruct (save_file_loop_cases E filename 0 st1 [] r2 st2 Hfile1 Hloop)
    as [Hframe2 Hcase].
  destruct r2 as [total|code|e].
  - destruct Hcase as (written & -> & Hfile2 & Hfaults2).
    rewrite N.add_0_l. cbn [app] in Hfile2.
    unfold bind at 1, file_close.
    destruct (write_faults st2) as [|[|kept] faults] eqn:Hst2; cbn [tail];
      [ | | intros [= <- <-]; cbn [files trace]; repeat apply conj;
            [ intros other Hother; rewrite lookup_alter_ne by congruence;
              rewrite (Hframe2 other Hother); auto
            | reflexivity
            | rewrite lookup_alter_eq, Hfile2; eexists; reflexivity
            | intros Hnone; apply Hfaults2 in Hnone;
              unfold no_write_fault in Hnone; rewrite Hst2 in Hnone;
              inversion Hnone; discriminate
            | apply last_snoc ] ];
      (destruct (from_bytes (slice 4 8 header) =? len written) eqn:Hcount;
       cbn [negb when];
       [ apply N.eqb_eq in Hcount;
         unfold bind, ret; intros [= <- <-]; cbn [files]; split;
         [ intros other Hother; rewrite (Hframe2 other Hother); auto
         | rewrite Hcount; eauto ]
       | unfold bind at 1; unfold bind at 1; cbn [print emit];
         match goal with
         | |- context [bind (Client.remove_file E filename) _ ?s] =>
             destruct (remove_file_existing E filename s written)
               as (s3 & Hrm & _ & Hgone & Hframe3); [exact Hfile2|]
         end;
         unfold bind; rewrite Hrm; unfold exit; intros [= <- <-]; split;
         [ intros other Hother;
           rewrite (Hframe3 other Hother); cbn [files];
           rewrite (Hframe2 other Hother); auto
         | auto ] ]).
  - destruct Hcase as [-> Hgone]. intros [= <- <-]. split.
    + intros other Hother. rewrite (Hframe2 other Hother). auto.
    + auto.
  - destruct Hcase as (-> & Hleft & Hfault & Hlast). intros [= <- <-]. split.
    + intros other Hother. rewrite (Hframe2 other Hother). auto.
    + auto.
Qed.


(** The three ways [save_file] ends once the destination has been created,
    whatever the peer sends and whatever the socket and the storage do.
    Either it returns DataLen and the file holds exactly that many bytes; or
    the client exits with status 1 after [os.remove] on the file, which is
    gone when the removal succeeds; or [file.close()] raises OSError because
    the storage refused a write, nothing catches it, no byte count is
    compared and the file is left behind.  No other file changes. *)
Theorem save_file_outcomes (E : env) (filename : str) (header : bytes)
    (st st' : state) (r : outcome N) :
  creatable E filename = true ->
  Client.save_file E filename header st = (r, st') ->
  (forall other, other <> filename -> files st' !! other = files st !! other) /\
  ((exists contents,
      r = Ret (from_bytes (slice 4 8 header)) /\
      files st' !! filename = Some contents /\
      len contents = from_bytes (slice 4 8 header)) \/
   (r = Exit 1 /\ (removable E filename = true -> files st' !! filename = None)) \/
   (r = Raise OSError /\
    ~ no_write_fault st /\
    last (trace st') = Some CloseFile /\
    is_Some (files st' !! filename))).
Proof.
  intros Hcreate Hrun.
  destruct (save_file_created E filename header st st' r Hcreate Hrun)
    as [Hframe Hcase].
  split; [exact Hframe|].
  destruct r as [total|code|e].
  - destruct Hcase as (-> & contents & Hfile & Hcount). left. eauto.
  - destruct Hcase as [-> Hgone]. right. left. auto.
  - destruct Hcase as (-> & Hleft & Hfault & Hlast). right. right. auto.
Qed.

Lemma save_file_outcomes_witness :
  let run := Client.save_file obliging [102] [x49; x7e; x02; x01; x00; x00; x00; x02]
               (State [Data [x68]; Timeout] true {[ [103] := [x21] ]} [] []) in
  fst run = Exit 1 /\
  files (snd run) !! [102] = None /\
  files (snd run) !! [103] = Some [x21].
Proof.
  destruct (Client.save_file obliging [102] [x49; x7e; x02; x01; x00; x00; x00; x02]
              (State [Data [x68]; Timeout] true {[ [103] := [x21] ]} [] []))
    as [r st'] eqn:Hrun.
  destruct (save_file_outcomes obliging [102]
              [x49; x7e; x02; x01; x00; x00; x00; x02] _ st' r eq_refl Hrun)
    as [Hframe [(contents & -> & _) | [[-> Hgone] | (-> & _)]]].
  - vm_compute in Hrun. discriminate.
  - cbn [fst snd]. repeat apply conj.
    + reflexivity.
    + apply Hgone. reflexivity.
    + rewrite Hframe by discriminate. reflexivity.
  - vm_compute in Hrun. discriminate.
Defined.

(** The whole payload arrives, DataLen matches, and the storage refuses the
    bytes at [file.close()] after taking one of them: [save_file] raises
    OSError and the destination is left holding that one byte. *)
Lemma close_fault_leaves_partial_file :
  let run := Client.save_file obliging [102] [x49; x7e; x02; x01; x00; x00; x00; x02]
               (State [Data [x68; x69]] true ∅ [NoFault; NoFault; Fault 1] []) in
  fst run = Raise OSError /\
  files (snd run) !! [102] = Some [x68] /\
  trace (snd run) =
    [OpenWrite [102]; Print Downloading;
     Recv DATA_BLOCK_SIZE; Write [x68; x69]; Recv DATA_BLOCK_SIZE; Write [];
     CloseFile].
Proof. repeat split. Qed.

(** ** Exactly which headers pass validation *)

Lemma from_bytes_nil_magic (header : bytes) :
  from_bytes (slice 0 2 header) = MAGICNO -> (len header =? 0) = false.
Proof. destruct header; [discriminate | reflexivity]. Qed.

(** The server accepts a request header exactly when its first two bytes
    are the magic number, its third byte is 1 and the integer in
    [header[3:5]] lies in 1..1024; the length of the header is not looked
    at. *)
Theorem is_valid_header_accepts_iff (header : bytes) (st : state) :
  fst (Server.is_valid_header header st) = Ret true <->
  from_bytes (slice 0 2 header) = MAGICNO /\
  Byte.to_N <$> header !! 2%nat = Some REQUEST_TYPE /\
  MIN_FILENAME_LEN <= from_bytes (slice 3 5 header) <= MAX_FILENAME_LEN.
Proof.
  split; [apply is_valid_header_fields|].
  intros (Hmagic & Htype & Hlo & Hhi).
  unfold Server.is_valid_header, index, bind, ret.
  rewrite (from_bytes_nil_magic header Hmagic), Hmagic, N.eqb_refl. cbn [negb].
  destruct (header !! 2%nat) as [type|]; [|discriminate].
  injection Htype as ->. cbn [negb N.eqb Pos.eqb REQUEST_TYPE].
  replace (from_bytes (slice 3 5 header) <? MIN_FILENAME_LEN) with false
    by (symmetry; apply N.ltb_ge; assumption).
  replace (MAX_FILENAME_LEN <? from_bytes (slice 3 5 header)) with false
    by (symmetry; apply N.ltb_ge; assumption).
  reflexivity.
Qed.

(** The client lets a response header through exactly when its first two
    bytes are the magic number, its third byte is 2 and its fourth byte is 0
    or 1; DataLen and the length of the header are not looked at. *)
Theorem validate_header_passes_iff (header : bytes) (st : state) :
  fst (Client.validate_header header st) = Ret tt <->
  from_bytes (slice 0 2 header) = MAGICNO /\
  Byte.to_N <$> header !! 2%nat = Some RESPONSE_TYPE /\
  (Byte.to_N <$> header !! 3%nat = Some 0 \/
   Byte.to_N <$> header !! 3%nat = Some 1).
Proof.
  unfold Client.validate_header, when, index, bind, ret, raise, print, emit, exit.
  split.
  - destruct (len header =? 0); [discriminate|].
    destruct (from_bytes (slice 0 2 header) =? MAGICNO) eqn:Hmagic; [|discriminate].
    destruct (header !! 2%nat) as [type|]; [|discriminate]. cbn.
    destruct (Byte.to_N type =? RESPONSE_TYPE) eqn:Htype; [|discriminate]. cbn.
    destruct (header !! 3%nat) as [status|]; [|discriminate]. cbn.
    destruct (Byte.to_N status =? 0) eqn:H0;
      [|destruct (Byte.to_N status =? 1) eqn:H1; [|discriminate]];
      intros _; apply N.eqb_eq in Hmagic, Htype;
      (repeat apply conj; [assumption | congruence |]).
    + left. apply N.eqb_eq in H0. congruence.
    + right. apply N.eqb_eq in H1. congruence.
  - intros (Hmagic & Htype & Hstatus).
    rewrite (from_bytes_nil_magic header Hmagic), Hmagic, N.eqb_refl. cbn.
    destruct (header !! 2%nat) as [type|]; [|discriminate].
    injection Htype as ->. cbn.
    destruct (header !! 3%nat) as [status|]; [|destruct Hstatus; discriminate].
    destruct Hstatus as [[= ->] | [= ->]]; reflexivity.
Qed.

(** ** Request headers cut short *)

(** A request header that stops right after a valid magic number is neither
    accepted nor rejected: [is_valid_header] raises IndexError at
    [header[2]], nothing catches it, and the server process ends without
    accepting the connections that follow. *)
Theorem header_without_type_stops_server (E : env) (conn : connection)
    (later : list (option connection)) (st st1 : state) (header : bytes) :
  Server.get_header (accepted conn st) = (Ret header, st1) ->
  from_bytes (slice 0 2 header) = MAGICNO ->
  header !! 2%nat = None ->
  exists st',
    Server.serve E (Some conn :: later) st = (Raise IndexError, st') /\
    trace st' = trace (accepted conn st) ++ [Recv REQUEST_HEADER_LEN; CloseSocket].
Proof.
  intros Hheader Hmagic Hshort.
  destruct (server_get_header_ret _ st1 header Hheader) as (_ & _ & _ & Htrace).
  rewrite serve_cons.
  generalize dependent (accepted conn st). intros st0 Hheader Htrace.
  unfold with_socket, Server.handle_connection. unfold bind at 1.
  rewrite Hheader. unfold bind at 1.
  unfold Server.is_valid_header, index.
  rewrite (from_bytes_nil_magic header Hmagic), Hmagic, N.eqb_refl, Hshort.
  cbn [negb]. unfold bind, raise.
  eexists. split; [reflexivity|].
  cbn [trace]. rewrite Htrace, <- app_assoc. reflexivity.
Qed.

Lemma header_without_type_stops_server_witness :
  exists st',
    Server.serve obliging
      [Some (Connection [Data [x49; x7e]] true); Some (Connection [] true)]
      (fresh []) = (Raise IndexError, st').
Proof.
  destruct (header_without_type_stops_server obliging
              (Connection [Data [x49; x7e]] true) [Some (Connection [] true)]
              (fresh [])
              (State [] true ∅ []
                 [Print Blank; Accept; Print ConnectionInfo; Recv REQUEST_HEADER_LEN])
              [x49; x7e])
    as (st' & Hrun & _).
  - reflexivity.
  - reflexivity.
  - reflexivity.
  - exists st'. exact Hrun.
Defined.

(** ** The filenames the server looks up *)

(** A [recv] returns at most [bufsize] bytes. *)
Lemma sock_recv_bounded (bufsize : N) (st st1 : state) (bs : bytes) :
  sock_recv bufsize st = (Ret (Received bs), st1) -> len bs <= bufsize.
Proof.
  unfold sock_recv.
  destruct (sock_in st) as [|[data| |] rest]; try discriminate.
  - intros [= <- _]. apply N.le_0_l.
  - destruct (len data <=? bufsize) eqn:Hfit; intros [= <- _].
    + apply N.leb_le, Hfit.
    + rewrite len_take. lia.
Qed.

(** Every filename the server goes on to open has between 1 and 1024
    characters, as many as the header declared, and every character is below
    U+0100: whatever bytes arrive, a name is one character per byte. *)
Theorem looked_up_filename_bounds (st st1 st2 : state) (header : bytes)
    (filename : str) :
  Server.get_header st = (Ret header, st1) ->
  fst (Server.is_valid_header header st1) = Ret true ->
  Server.get_filename header st1 = (Ret (Some filename), st2) ->
  len filename = from_bytes (slice 3 5 header) /\
  MIN_FILENAME_LEN <= len filename <= MAX_FILENAME_LEN /\
  Forall (fun c => c < 256) filename.
Proof.
  intros Hheader Hvalid Hname.
  assert (Hshort : len header <= REQUEST_HEADER_LEN).
  { revert Hheader. unfold Server.get_header, bind.
    destruct (sock_recv REQUEST_HEADER_LEN st) as [[[bs| |]| |] st0] eqn:Hrecv;
      try discriminate.
    intros [= <- _]. eapply sock_recv_bounded, Hrecv. }
  assert (Hfield : slice 3 5 header = drop 3 header).
  { unfold slice. apply take_ge. rewrite length_drop.
    unfold len, REQUEST_HEADER_LEN in Hshort. lia. }
  destruct (is_valid_header_fields header st1 Hvalid) as (_ & _ & Hrange).
  revert Hname. unfold Server.get_filename, bind.
  destruct (sock_recv _ st1) as [[[bs| |]| |] st0]; try discriminate.
  destruct (len bs =? from_bytes (drop 3 header)) eqn:Hlen; cbn [negb];
    [|unfold bind, print, emit, ret; destruct (_ <? _); discriminate].
  intros [= <- _].
  apply N.eqb_eq in Hlen.
  assert (Hcount : len (map chr bs) = from_bytes (slice 3 5 header)).
  { unfold len in *. rewrite length_map, Hfield. exact Hlen. }
  repeat apply conj; [exact Hcount | rewrite Hcount; apply Hrange.. |].
  clear. induction bs as [|b bs IH]; constructor; [|exact IH].
  unfold chr. pose proof (Byte.to_N_bounded b). lia.
Qed.

Lemma looked_up_filename_bounds_witness :
  len [104; 105] = 2 /\
  MIN_FILENAME_LEN <= len [104; 105] <= MAX_FILENAME_LEN /\
  Forall (fun c => c < 256) [104; 105].
Proof.
  apply (looked_up_filename_bounds
           (fresh [Data (request_header 2 ++ [x68; x69])])
           (State [Data [x68; x69]] true ∅ [] [Recv REQUEST_HEADER_LEN])
           (State [] true ∅ [] [Recv REQUEST_HEADER_LEN; Recv 3])
           (request_header 2) [104; 105]); reflexivity.
Defined.

(** ** A request the server answers *)

Lemma get_file_data_exact (E : env) (filename : str) (st : state) :
  Server.get_file_data E filename st =
    (Ret (file_served E st filename),
     State (sock_in st) (sock_send_ok st) (files st) (write_faults st)
           (trace st ++ file_diagnostic E st filename)).
Proof.
  unfold Server.get_file_data, open_read, isfile, bind, print, emit, ret,
    file_served, file_diagnostic.
  destruct (files st !! filename) as [contents|] eqn:Hfile.
  - destruct (readable E filename).
    + rewrite app_nil_r, state_eta. reflexivity.
    + rewrite Hfile, bool_decide_eq_true_2 by (eexists; reflexivity). reflexivity.
  - rewrite Hfile, bool_decide_eq_false_2 by (intros [? [=]]). reflexivity.
Qed.

(** The bytes of a response, spelled out. *)
Lemma construct_response_layout (data : bytes) :
  len data < 2 ^ 32 ->
  Server.construct_response data =
    Ret ([x49; x7e; x02; byte_of_N (if len data =? 0 then 0 else 1)] ++
         be_digits 4 (len data) ++ data).
Proof.
  intros Hfit.
  destruct (to_bytes_ret 4 (len data) Hfit) as [Hbytes _].
  unfold Server.construct_response.
  rewrite magic_bytes, Hbytes. reflexivity.
Qed.



(** A file of 2^32 bytes or more cannot be announced in the 4-byte DataLen
    field: a valid request for it makes [construct_response] raise
    OverflowError, nothing catches it, and the server process ends having
    sent nothing. *)
Theorem oversized_file_stops_server (E : env) (conn : connection)
    (later : list (option connection)) (st st1 : state) (header bs : bytes) :
  Server.get_header (accepted conn st) = (Ret header, st1) ->
  fst (Server.is_valid_header header st1) = Ret true ->
  arrived (sock_in st1) = Some bs ->
  len bs = from_bytes (drop 3 header) ->
  2 ^ 32 <= len (file_served E st (map chr bs)) ->
  exists st',
    Server.serve E (Some conn :: later) st = (Raise OverflowError, st') /\
    trace st' = trace (accepted conn st) ++
      [Recv REQUEST_HEADER_LEN; Recv (len bs + 1); CloseSocket].
Proof.
  intros Hheader Hvalid Harrived Hlen Hbig.
  destruct (server_get_header_ret _ st1 header Hheader)
    as (_ & Hfiles1 & _ & Htrace1).
  destruct (get_filename_arrived header st1 bs Harrived)
    as (st2 & Hname & _ & Hfiles2 & Htrace2).
  rewrite <- Hlen, N.eqb_refl in Hname, Htrace2.
  assert (Hserved : file_served E st2 (map chr bs) = file_served E st (map chr bs)).
  { unfold file_served. rewrite Hfiles2, Hfiles1. reflexivity. }
  assert (Hdiag : file_diagnostic E st2 (map chr bs) = []).
  { revert Hbig. unfold file_diagnostic, file_served.
    rewrite Hfiles2, Hfiles1. cbn [accepted files].
    destruct (files st !! map chr bs); [destruct (readable E _)|];
      try reflexivity; intros Hbig; vm_compute in Hbig; contradiction. }
  rewrite serve_cons.
  generalize dependent (accepted conn st). intros st0 Hheader Hfiles1 Htrace1.
  unfold with_socket, Server.handle_connection. unfold bind at 1.
  rewrite Hheader. unfold bind at 1.
  rewrite (is_valid_header_true header st1 Hvalid st1). cbn [negb].
  unfold bind at 1. rewrite Hname.
  unfold bind at 1. rewrite (get_file_data_exact E _ st2), Hserved, Hdiag.
  unfold bind at 1, lift. rewrite (construct_response_overflow _ Hbig).
  eexists. split; [reflexivity|].
  cbn [trace]. rewrite app_nil_r, Htrace2, Htrace1, <- !app_assoc. reflexivity.
Qed.

Lemma oversized_file_stops_server_witness :
  exists st',
    Server.serve obliging
      [Some (Connection [Data (request_header 1 ++ [x66])] true);
       Some (Connection [] true)] beside_4GiB
    = (Raise OverflowError, st').
Proof.
  destruct (oversized_file_stops_server obliging
              (Connection [Data (request_header 1 ++ [x66])] true)
              [Some (Connection [] true)] beside_4GiB
              (State [Data [x66]] true (files beside_4GiB) []
                 [Print Blank; Accept; Print ConnectionInfo;
                  Recv REQUEST_HEADER_LEN])
              (request_header 1) [x66])
    as (st' & Hrun & _).
  - reflexivity.
  - reflexivity.
  - reflexivity.
  - reflexivity.
  - unfold file_served, beside_4GiB. cbn [files map chr Byte.to_N].
    rewrite lookup_singleton_eq. cbn [obliging readable].
    unfold len. rewrite repeat_length, N2Nat.id. reflexivity.
  - exists st'. exact Hrun.
Defined.

(** ** What the programs leave alone *)

Create HintDb keeps discriminated.

Section Keeps.
Context {B : Type} (view : state -> B) (Hview : of_files view).

Lemma keeps_ret {A} (a : A) : keeps view (ret a).
Proof. intros st. reflexivity. Qed.

Lemma keeps_exit {A} (code : Z) : keeps view (@exit A code).
Proof. intros st. reflexivity. Qed.

Lemma keeps_raise {A} (e : exn) : keeps view (@raise A e).
Proof. intros st. reflexivity. Qed.

Lemma keeps_lift {A} (r : outcome A) : keeps view (lift r).
Proof. intros st. reflexivity. Qed.

Lemma keeps_emit (e : event) : keeps view (emit e).
Proof using Hview. intros st. apply Hview. reflexivity. Qed.

Lemma keeps_print (m : message) : keeps view (print m).
Proof using Hview. apply keeps_emit. Qed.

(** The continuation need only behave on the values [c] can return. *)
Lemma keeps_bind_ret {A C} (c : M A) (k : A -> M C) :
  keeps view c ->
  (forall a st st', c st = (Ret a, st') -> keeps view (k a)) ->
  keeps view (bind c k).
Proof.
  intros Hc Hk st. unfold bind.
  pose proof (Hc st) as Hst.
  destruct (c st) as [[a|code|e] st1] eqn:Hrun; cbn [snd] in *; [|assumption..].
  rewrite (Hk a st st1 Hrun st1). exact Hst.
Qed.

Lemma keeps_bind {A C} (c : M A) (k : A -> M C) :
  keeps view c -> (forall a, keeps view (k a)) -> keeps view (bind c k).
Proof. intros Hc Hk. apply keeps_bind_ret; auto. Qed.

Lemma keeps_when (b : bool) (c : M unit) : keeps view c -> keeps view (when b c).
Proof. destruct b; [trivial | intros _; apply keeps_ret]. Qed.

Lemma keeps_if {A} (b : bool) (c1 c2 : M A) :
  keeps view c1 -> keeps view c2 -> keeps view (if b then c1 else c2).
Proof. destruct b; trivial. Qed.

Lemma keeps_index (b : bytes) (i : nat) : keeps view (index b i).
Proof. unfold index. destruct (b !! i); [apply keeps_ret | apply keeps_raise]. Qed.

Lemma keeps_with_socket {A} (body : M A) :
  keeps view body -> keeps view (with_socket body).
Proof using Hview.
  intros Hbody st. unfold with_socket.
  pose proof (Hbody st) as Hst.
  destruct (body st) as [r st1]; cbn [snd] in *.
  rewrite <- Hst. apply Hview. reflexivity.
Qed.

Lemma keeps_sock_recv (bufsize : N) : keeps view (sock_recv bufsize).
Proof using Hview.
  intros st. apply Hview.
  destruct (sock_recv bufsize st) as [r st1] eqn:Hrecv.
  apply (sock_recv_frame _ _ _ _ Hrecv).
Qed.

Lemma keeps_sock_sendall (data : bytes) : keeps view (sock_sendall data).
Proof using Hview. intros st. apply Hview. reflexivity. Qed.

Lemma keeps_isfile (name : str) : keeps view (isfile name).
Proof. intros st. reflexivity. Qed.

Lemma keeps_open_read (E : env) (name : str) : keeps view (open_read E name).
Proof.
  intros st. unfold open_read.
  destruct (files st !! name); [destruct (readable E name)|]; reflexivity.
Qed.

Lemma keeps_accept_connection (arrival : option connection) :
  keeps view (Server.accept_connection arrival).
Proof using Hview.
  intros st. unfold Server.accept_connection. destruct arrival as [conn|];
    apply Hview; reflexivity.
Qed.
End Keeps.

#[export] Hint Resolve keeps_ret keeps_exit keeps_raise keeps_lift keeps_emit
  keeps_print keeps_when keeps_if keeps_index keeps_with_socket keeps_sock_recv
  keeps_sock_sendall keeps_isfile keeps_open_read keeps_accept_connection : keeps.

Ltac keeps_step :=
  match goal with
  | |- keeps _ (bind _ _) => apply keeps_bind; [|intros ?]
  | |- keeps _ (with_socket _) => apply keeps_with_socket; [solve [auto with keeps]|]
  | |- keeps _ (when _ _) => apply keeps_when
  | |- keeps _ (match ?x with _ => _ end) => destruct x
  | |- keeps _ _ => solve [auto with keeps]
  end.

Lemma files_of_files : of_files files.
Proof. intros st st' Hfiles. exact Hfiles. Qed.

Lemma lookup_of_files (name : str) : of_files (fun st => files st !! name).
Proof. intros st st' Hfiles. cbn. rewrite Hfiles. reflexivity. Qed.

#[export] Hint Resolve files_of_files lookup_of_files : keeps.

Lemma keeps_handle_connection {B} (view : state -> B) (E : env) :
  of_files view -> keeps view (Server.handle_connection E).
Proof.
  intros Hview.
  unfold Server.handle_connection, Server.get_header, Server.is_valid_header,
    Server.get_filename, Server.get_file_data, Server.send_response,
    Server.print_info.
  repeat keeps_step.
Qed.

Lemma keeps_serve {B} (view : state -> B) (E : env)
    (arrivals : list (option connection)) :
  of_files view -> keeps view (Server.serve E arrivals).
Proof.
  intros Hview.
  induction arrivals as [|arrival later IH]; cbn [Server.serve].
  - repeat keeps_step.
  - apply keeps_bind; [auto with keeps|]. intros _.
    apply keeps_bind; [auto with keeps|]. intros accepted.
    apply keeps_bind; [|intros _; exact IH].
    destruct accepted; [|auto with keeps].
    apply keeps_with_socket, keeps_handle_connection; assumption.
Qed.

(** The server never creates, changes or removes a file: however it is
    started, whoever connects and whatever they send, and however the run
    ends, the files are what they were. *)
Theorem server_changes_no_file (E : env) (argv : list str)
    (arrivals : list (option connection)) (st : state) :
  files (snd (Server.main E argv arrivals st)) = files st.
Proof.
  revert st. change (keeps files (Server.main E argv arrivals)).
  assert (Hserve := keeps_serve files E arrivals files_of_files).
  unfold Server.main, Server.arguemnt_check, Server.create_socket,
    Server.bind_socket, Server.listen_on_socket.
  repeat keeps_step.
Qed.

(** [save_file] changes no file but its destination, whether or not the
    destination can be created. *)
Lemma keeps_save_file (E : env) (filename other : str) (header : bytes) :
  other <> filename ->
  keeps (fun st => files st !! other) (Client.save_file E filename header).
Proof.
  intros Hother st.
  destruct (creatable E filename) eqn:Hcreate.
  - destruct (Client.save_file E filename header st) as [r st'] eqn:Hrun.
    destruct (save_file_created E filename header st st' r Hcreate Hrun)
      as [Hframe _].
    apply Hframe, Hother.
  - unfold Client.save_file, open_write, bind. rewrite Hcreate. reflexivity.
Qed.

(** When [arguemnt_check] returns, the filename it returns is the third
    argument. *)
Lemma arguemnt_check_filename (E : env) (argv : list str) (st st' : state)
    (ip : str) (port : Z) (filename : str) :
  Client.arguemnt_check E argv st = (Ret (ip, port, filename), st') ->
  filename = argv !!! 3%nat.
Proof.
  unfold Client.arguemnt_check, when, bind, ret, exit, raise, print, emit,
    isfile, open_read.
  destruct (negb _); [discriminate|].
  destruct (getaddrinfo E _); [|discriminate].
  destruct (str_isdigit E _); [|discriminate].
  destruct (str_to_int E _); [|discriminate].
  destruct (_ || _)%Z; [discriminate|].
  destruct (bool_decide _); [|intros [= _ _ <- _]; reflexivity].
  destruct (files st !! _); [destruct (readable E _)|];
    try discriminate; intros [= _ _ <- _]; reflexivity.
Qed.

(** The client never creates, changes or removes any file other than the
    one named by its third argument, however the run goes. *)
Theorem client_touches_only_destination (E : env) (argv : list str) (st : state)
    (other : str) :
  other <> argv !!! 3%nat ->
  files (snd (Client.main E argv st)) !! other = files st !! other.
Proof.
  intros Hother. revert st.
  change (keeps (fun st => files st !! other) (Client.main E argv)).
  pose proof (lookup_of_files other) as Hview.
  unfold Client.main.
  apply keeps_bind_ret.
  - unfold Client.arguemnt_check. repeat keeps_step.
  - intros [[ip port] filename] st st' Hargs.
    apply arguemnt_check_filename in Hargs. subst filename.
    pose proof (fun header => keeps_save_file E _ other header Hother) as Hsave.
    unfold Client.create_socket, Client.connect_to_server, Client.get_header,
      Client.validate_header, Client.check_status_code, Client.print_info.
    repeat keeps_step.
Qed.

Lemma client_touches_only_destination_witness :
  files (snd (Client.main obliging a_command_line
                (State [Data [x49; x7e; x02; x01; x00; x00; x00; x01; x21]] true
                       {[ [103] := [x68] ]} [] []))) !! [103] = Some [x68].
Proof.
  rewrite (client_touches_only_destination obliging a_command_line
             (State [Data [x49; x7e; x02; x01; x00; x00; x00; x01; x21]] true
                    {[ [103] := [x68] ]} [] []) [103]).
  - reflexivity.
  - vm_compute. discriminate.
Defined.

(** ** A download that succeeds *)

(** [save_file] against a peer that sends [payload] and closes the stream
    when the header declared just that length. *)
Lemma save_file_matching_count (E : env) (filename : str) (header : bytes)
    (st : state) (payload : bytes) :
  creatable E filename = true ->
  incoming (sock_in st) = Some payload ->
  no_write_fault st ->
  len payload = from_bytes (slice 4 8 header) ->
  exists st' evs,
    Client.save_file E filename header st = (Ret (len payload), st') /\
    Forall transfer_event evs /\
    trace st' = trace st ++ [OpenWrite filename; Print Downloading] ++ evs ++
                [CloseFile] /\
    files st' = <[filename := payload]> (files st).
Proof.
  intros Hcreate Hincoming Hfaults Hcount.
  set (st1 := State (sock_in st) (sock_send_ok st) (<[filename := []]> (files st))
                    (write_faults st)
                    ((trace st ++ [OpenWrite filename]) ++ [Print Downloading])).
  destruct (save_file_loop_incoming E filename payload st1 0 Hincoming Hfaults)
    as (st2 & evs & Hloop & _ & Hfiles & Hfaults2 & Htrace & Hevs).
  rewrite N.add_0_l in Hloop.
  exists (State (sock_in st2) (sock_send_ok st2) (files st2)
                (tail (write_faults st2))
                (trace st2 ++ [CloseFile])), evs.
  repeat apply conj.
  - unfold Client.save_file, open_write. unfold bind at 1. rewrite Hcreate.
    cbn [negb when]. unfold bind at 1. cbn [ret].
    cbv zeta. unfold bind at 1.
    cbn [print emit sock_in sock_send_ok files write_faults trace]. fold st1.
    unfold bind at 1. rewrite Hloop.
    unfold bind at 1. rewrite (file_close_flushed filename st2 Hfaults2).
    rewrite <- Hcount, N.eqb_refl. reflexivity.
  - exact Hevs.
  - cbn [trace]. rewrite Htrace. subst st1. cbn [trace].
    rewrite <- !app_assoc. reflexivity.
  - cbn [files]. rewrite Hfiles. subst st1. cbn [files].
    apply alter_insert_eq.
Qed.


(** Against a peer that sends exactly the DataLen bytes the header declared
    and then closes the stream, however the bytes are cut into segments,
    when the destination can be created and the storage takes every write
    and the close, [save_file] returns that count, the destination holds
    exactly those bytes in order, nothing is removed and no other file
    changes. *)
Theorem save_file_stores_payload (E : env) (filename : str) (header : bytes)
    (st : state) (payload : bytes) :
  creatable E filename = true ->
  incoming (sock_in st) = Some payload ->
  no_write_fault st ->
  len payload = from_bytes (slice 4 8 header) ->
  exists st' evs,
    Client.save_file E filename header st = (Ret (len payload), st') /\
    files st' !! filename = Some payload /\
    (forall other, other <> filename -> files st' !! other = files st !! other) /\
    trace st' = trace st ++ evs /\
    (forall name, ~ In (Remove name) evs).
Proof.
  intros Hcreate Hincoming Hfaults Hcount.
  destruct (save_file_matching_count E filename header st payload
              Hcreate Hincoming Hfaults Hcount)
    as (st' & evs & Hrun & Hevs & Htrace & Hfiles).
  exists st', ([OpenWrite filename; Print Downloading] ++ evs ++ [CloseFile]).
  repeat apply conj.
  - exact Hrun.
  - rewrite Hfiles. apply lookup_insert_eq.
  - intros other Hother. rewrite Hfiles. apply lookup_insert_ne. congruence.
  - exact Htrace.
  - intros name Hin.
    apply in_app_or in Hin as [Hin | Hin];
      [cbn in Hin; intuition discriminate|].
    apply in_app_or in Hin as [Hin | Hin];
      [|cbn in Hin; intuition discriminate].
    clear Htrace. revert Hin.
    induction Hevs as [|ev evs' Hev _ IH]; cbn; [tauto|].
    intros [Hin | Hin]; [|exact (IH Hin)].
    destruct Hev as [Hev | [block Hev]]; congruence.
Qed.

Lemma save_file_stores_payload_witness :
  exists st',
    Client.save_file obliging [102] [x49; x7e; x02; x01; x00; x00; x00; x02]
      (fresh [Data [x68]; Data [x69]]) = (Ret 2, st') /\
    files st' !! [102] = Some [x68; x69].
Proof.
  destruct (save_file_stores_payload obliging [102]
              [x49; x7e; x02; x01; x00; x00; x00; x02]
              (fresh [Data [x68]; Data [x69]]) [x68; x69])
    as (st' & evs & Hrun & Hfile & _).
  - reflexivity.
  - reflexivity.
  - constructor.
  - reflexivity.
  - exists st'. split; [exact Hrun | exact Hfile].
Defined.

(** A header the client lets through is let through in every state,
    silently. *)
Lemma validate_header_ret (header : bytes) (st : state) :
  fst (Client.validate_header header st) = Ret tt ->
  forall s, Client.validate_header header s = (Ret tt, s).
Proof.
  unfold Client.validate_header, when, index, bind, ret, raise, print, emit, exit.
  intros Hpass s. revert Hpass.
  destruct (len header =? 0); [discriminate|].
  destruct (negb _); [discriminate|].
  destruct (header !! 2%nat) as [type|]; [|discriminate]. cbn.
  destruct (negb _); [discriminate|].
  destruct (header !! 3%nat) as [status|]; [|discriminate]. cbn.
  destruct (negb _); [discriminate|].
  reflexivity.
Qed.

(** Every response the server builds passes the client's header checks,
    and its StatusCode lets the client go on exactly when there is a payload:
    for an empty payload the client stops at [check_status_code]. *)
Theorem response_passes_client_checks (data : bytes) (st : state) :
  len data < 2 ^ 32 ->
  exists response,
    Server.construct_response data = Ret response /\
    fst (Client.validate_header (take 8 response) st) = Ret tt /\
    fst (Client.check_status_code (take 8 response) st) =
      (if decide (data = []) then Exit 1 else Ret tt) /\
    from_bytes (slice 4 8 (take 8 response)) = len data.
Proof.
  intros Hfit.
  destruct (to_bytes_ret 4 (len data) Hfit) as [_ Hvalue].
  eexists. split; [apply (construct_response_layout data Hfit)|].
  cbn [be_digits app take] in *.
  repeat apply conj.
  - destruct data; reflexivity.
  - destruct data; reflexivity.
  - exact Hvalue.
Qed.

Lemma response_passes_client_checks_witness :
  exists response,
    Server.construct_response [x68; x69] = Ret response /\
    fst (Client.validate_header (take 8 response) (fresh [])) = Ret tt /\
    fst (Client.check_status_code (take 8 response) (fresh [])) = Ret tt /\
    from_bytes (slice 4 8 (take 8 response)) = 2.
Proof. apply (response_passes_client_checks [x68; x69] (fresh [])). reflexivity. Defined.

Lemma incoming_cons (bs : bytes) (rest : list recv_event) :
  bs <> [] ->
  incoming (Data bs :: rest) = option_map (app bs) (incoming rest).
Proof. destruct bs; [contradiction | reflexivity]. Qed.

(** The header read when the first segment holds at least the 8 header
    bytes: the header is the first 8 bytes of the stream and the rest of the
    stream is still to come. *)
Lemma incoming_after_header (bs whole : bytes) (rest : list recv_event) :
  incoming (Data bs :: rest) = Some whole ->
  RESPONSE_HEADER_LEN <= len bs ->
  take 8 bs = take 8 whole /\
  incoming (if len bs <=? RESPONSE_HEADER_LEN then rest
            else Data (drop 8 bs) :: rest) = Some (drop 8 whole).
Proof.
  intros Hincoming Hlen. unfold len, RESPONSE_HEADER_LEN in Hlen.
  rewrite incoming_cons in Hincoming by (intros ->; cbn in Hlen; lia).
  destruct (incoming rest) as [tail_|] eqn:Htail; [|discriminate].
  injection Hincoming as <-.
  split.
  - rewrite take_app_le by lia. reflexivity.
  - destruct (len bs <=? RESPONSE_HEADER_LEN) eqn:Hfit.
    + apply N.leb_le in Hfit. unfold len, RESPONSE_HEADER_LEN in Hfit.
      rewrite Htail, drop_app_ge by lia.
      replace (8 - length bs)%nat with 0%nat by lia. reflexivity.
    + apply N.leb_gt in Hfit. unfold len, RESPONSE_HEADER_LEN in Hfit.
      rewrite drop_app_le by lia.
      rewrite incoming_cons, Htail; [reflexivity|].
      intros Hdrop. apply (f_equal length) in Hdrop.
      rewrite length_drop in Hdrop. cbn [length] in Hdrop. lia.
Qed.

(** The two programs fit together.  Take a client whose arguments pass the
    checks, whose socket is created and connected, whose request is built
    and sent, whose destination can be created and whose storage takes
    every write and the close.  When the server's response to a non-empty
    file reaches it whole, the first segment carrying at least the 8 header
    bytes, the client's run ends normally, reports the file's size, and the
    destination holds exactly the file's bytes. *)
Theorem download_end_to_end (E : env) (argv : list str) (st : state)
    (ip : str) (port : Z) (filename : str) (request data response bs : bytes)
    (rest : list recv_event) :
  Client.arguemnt_check E argv st = (Ret (ip, port, filename), st) ->
  socket_ok E = true ->
  connect_ok E = true ->
  Client.construct_request filename = Ret request ->
  sock_send_ok st = true ->
  creatable E filename = true ->
  no_write_fault st ->
  data <> [] ->
  Server.construct_response data = Ret response ->
  sock_in st = Data bs :: rest ->
  RESPONSE_HEADER_LEN <= len bs ->
  incoming (sock_in st) = Some response ->
  exists st' evs,
    Client.main E argv st = (Ret tt, st') /\
    files st' = <[filename := data]> (files st) /\
    Forall transfer_event evs /\
    trace st' = trace st ++
      [Connect; SendAll request; Recv RESPONSE_HEADER_LEN;
       OpenWrite filename; Print Downloading] ++ evs ++
      [CloseFile; Print (Downloaded filename (len data)); CloseSocket].
Proof.
  intros Hargs Hsocket Hconnect Hrequest Hsend Hcreate Hfaults Hdata Hresponse
    Hin Hlen Hincoming.
  assert (Hfit : len data < 2 ^ 32).
  { destruct (N.lt_ge_cases (len data) (2 ^ 32)) as [Hlt | Hge]; [exact Hlt|].
    rewrite (construct_response_overflow data Hge) in Hresponse. discriminate. }
  destruct (to_bytes_ret 4 (len data) Hfit) as [_ Hvalue].
  rewrite (construct_response_layout data Hfit) in Hresponse.
  replace (len data =? 0) with false in Hresponse
    by (destruct data; [contradiction | reflexivity]).
  injection Hresponse as <-.
  rewrite Hin in Hincoming.
  destruct (incoming_after_header bs _ rest Hincoming Hlen) as [Hhead Hrest].
  cbn [be_digits app take drop] in Hhead, Hrest.
  set (header := [x49; x7e; x02; byte_of_N 1;
                  byte_of_N (len data / 256 ^ N.of_nat 3);
                  byte_of_N (len data / 256 ^ N.of_nat 2);
                  byte_of_N (len data / 256 ^ N.of_nat 1);
                  byte_of_N (len data / 256 ^ N.of_nat 0)]) in *.
  set (queue := if len bs <=? RESPONSE_HEADER_LEN then rest
                else Data (drop 8 bs) :: rest) in *.
  set (st1 := State queue (sock_send_ok st) (files st) (write_faults st)
                    (trace (request_sent request st) ++ [Recv RESPONSE_HEADER_LEN])).
  assert (Hheader : Client.get_header (request_sent request st) = (Ret header, st1)).
  { unfold Client.get_header, bind.
    rewrite (sock_recv_data RESPONSE_HEADER_LEN (request_sent request st) bs rest Hin).
    change (N.to_nat RESPONSE_HEADER_LEN) with 8%nat. rewrite Hhead. reflexivity. }
  destruct (save_file_matching_count E filename header st1 data Hcreate Hrest Hfaults)
    as (st2 & evs & Hsave & Hevs & Htrace & Hfiles).
  { symmetry. exact Hvalue. }
  exists (State (sock_in st2) (sock_send_ok st2) (files st2) (write_faults st2)
                ((trace st2 ++ [Print (Downloaded filename (len data))]) ++
                 [CloseSocket])), evs.
  repeat apply conj.
  - rewrite (main_request_sent E argv st ip port filename request
               Hargs Hsocket Hconnect Hrequest Hsend).
    unfold with_socket. unfold bind at 1. rewrite Hheader.
    unfold bind at 1.
    rewrite (validate_header_ret header st1 eq_refl st1).
    unfold bind at 1.
    change (Client.check_status_code header st1) with (Ret tt, st1).
    unfold bind at 1. rewrite Hsave. reflexivity.
  - cbn [files]. exact Hfiles.
  - exact Hevs.
  - cbn [trace]. rewrite Htrace. subst st1. cbn [trace request_sent].
    rewrite <- !app_assoc. reflexivity.
Qed.

Lemma download_end_to_end_witness :
  exists st',
    Client.main obliging a_command_line
      (fresh [Data [x49; x7e; x02; x01; x00; x00; x00; x02; x68]; Data [x69]])
    = (Ret tt, st') /\
    files st' = <[ [102] := [x68; x69] ]> ∅.
Proof.
  destruct (download_end_to_end obliging a_command_line
              (fresh [Data [x49; x7e; x02; x01; x00; x00; x00; x02; x68];
                      Data [x69]])
              [104] 5000%Z [102] [x49; x7e; x01; x00; x01; x66]
              [x68; x69] [x49; x7e; x02; x01; x00; x00; x00; x02; x68; x69]
              [x49; x7e; x02; x01; x00; x00; x00; x02; x68] [Data [x69]])
    as (st' & evs & Hrun & Hfiles & _).
  - reflexivity.
  - reflexivity.
  - reflexivity.
  - reflexivity.
  - reflexivity.
  - reflexivity.
  - constructor.
  - discriminate.
  - reflexivity.
  - reflexivity.
  - vm_compute. discriminate.
  - reflexivity.
  - exists st'. split; [exact Hrun | exact Hfiles].
Defined.

(** ** A file the server does not have *)

(** When the response header passes validation and its StatusCode is 0, the
    client reports that the server does not have the file and exits with
    status 1: it reads nothing more and creates no file. *)
Theorem not_found_exits_before_file (E : env) (argv : list str) (st st1 : state)
    (ip : str) (port : Z) (filename : str) (request header : bytes) :
  Client.arguemnt_check E argv st = (Ret (ip, port, filename), st) ->
  socket_ok E = true ->
  connect_ok E = true ->
  Client.construct_request filename = Ret request ->
  sock_send_ok st = true ->
  Client.get_header (request_sent request st) = (Ret header, st1) ->
  fst (Client.validate_header header st1) = Ret tt ->
  header !! 3%nat = Some x00 ->
  exists st',
    Client.main E argv st = (Exit 1, st') /\
    sock_in st' = sock_in st1 /\
    files st' = files st /\
    trace st' = trace st ++
      [Connect; SendAll request; Recv RESPONSE_HEADER_LEN; Print NotOnServer;
       CloseSocket].
Proof.
  intros Hargs Hsocket Hconnect Hrequest Hsend Hheader Hpass Hstatus.
  destruct (client_get_header_ret _ st1 header Hheader) as (_ & Hfiles & _ & Htrace).
  rewrite (main_request_sent E argv st ip port filename request
             Hargs Hsocket Hconnect Hrequest Hsend).
  unfold with_socket. unfold bind at 1. rewrite Hheader.
  unfold bind at 1. rewrite (validate_header_ret header st1 Hpass st1).
  unfold bind at 1, Client.check_status_code, index. rewrite Hstatus.
  eexists. split; [reflexivity|].
  cbn [sock_in files trace]. repeat apply conj; [reflexivity | exact Hfiles |].
  rewrite Htrace. cbn [request_sent trace]. rewrite <- !app_assoc. reflexivity.
Qed.

Lemma not_found_exits_before_file_witness :
  exists st',
    Client.main obliging a_command_line
      (fresh [Data [x49; x7e; x02; x00; x00; x00; x00; x00]]) = (Exit 1, st') /\
    files st' = ∅.
Proof.
  destruct (not_found_exits_before_file obliging a_command_line
              (fresh [Data [x49; x7e; x02; x00; x00; x00; x00; x00]])
              (State [] true ∅ []
                 [Connect; SendAll [x49; x7e; x01; x00; x01; x66];
                  Recv RESPONSE_HEADER_LEN])
              [104] 5000%Z [102] [x49; x7e; x01; x00; x01; x66]
              [x49; x7e; x02; x00; x00; x00; x00; x00])
    as (st' & Hrun & _ & Hfiles & _); try reflexivity.
  exists st'. split; [exact Hrun | exact Hfiles].
Defined.

(** ** Filenames the protocol has no room for *)

(** The client does not check the length of the filename it requests.  A
    name whose encoding is empty, or longer than 1024 bytes but still fits
    the 2-byte length field, is turned into a request all the same, and the
    server's validation rejects the header of that request. *)
Theorem unchecked_filename_is_rejected (filename : str) (payload : bytes)
    (st : state) :
  encode filename = Ret payload ->
  len payload = 0 \/ MAX_FILENAME_LEN < len payload < 65536 ->
  exists request,
    Client.construct_request filename = Ret request /\
    drop 5 request = payload /\
    fst (Server.is_valid_header (take 5 request) st) = Ret false.
Proof.
  intros Hencode Hrange.
  destruct (to_bytes_ret 2 (len payload)) as [Hfield Hvalue].
  { change (256 ^ N.of_nat 2) with 65536. unfold MAX_FILENAME_LEN in Hrange. lia. }
  unfold Client.construct_request.
  rewrite magic_bytes, Hencode. cbn [and_then]. rewrite Hfield.
  eexists. split; [reflexivity|].
  cbn [be_digits app] in *. split; [reflexivity|].
  set (hi := byte_of_N (len payload / 256 ^ N.of_nat 1)) in *.
  set (lo := byte_of_N (len payload / 256 ^ N.of_nat 0)) in *.
  match goal with
  | |- context [take 5 ?r] => change (take 5 r) with [x49; x7e; x01; hi; lo]
  end.
  unfold Server.is_valid_header, index, bind, ret.
  change (slice 3 5 [x49; x7e; x01; hi; lo]) with [hi; lo].
  cbn [len length N.of_nat Pos.of_succ_nat Pos.succ N.eqb].
  rewrite Hvalue.
  replace ((len payload <? MIN_FILENAME_LEN) || (MAX_FILENAME_LEN <? len payload))
    with true; [reflexivity|].
  symmetry. apply orb_true_iff. unfold MIN_FILENAME_LEN.
  destruct Hrange as [-> | [Hlong _]]; [left; reflexivity|].
  right. apply N.ltb_lt, Hlong.
Qed.

Lemma unchecked_filename_is_rejected_witness :
  exists request,
    Client.construct_request [] = Ret request /\
    drop 5 request = [] /\
    fst (Server.is_valid_header (take 5 request) (fresh [])) = Ret false.
Proof.
  apply (unchecked_filename_is_rejected [] [] (fresh [])).
  - reflexivity.
  - left. reflexivity.
Defined.

(** A filename whose encoding takes 65536 bytes or more does not fit the
    2-byte length field: the client connects, [construct_request] raises
    OverflowError, nothing catches it, and the run ends with nothing sent. *)
Theorem overlong_filename_raises (E : env) (argv : list str) (st : state)
    (ip : str) (port : Z) (filename : str) (payload : bytes) :
  Client.arguemnt_check E argv st = (Ret (ip, port, filename), st) ->
  socket_ok E = true ->
  connect_ok E = true ->
  encode filename = Ret payload ->
  65536 <= len payload ->
  Client.construct_request filename = Raise OverflowError /\
  Client.main E argv st =
    (Raise OverflowError,
     State (sock_in st) (sock_send_ok st) (files st) (write_faults st)
           (trace st ++ [Connect; CloseSocket])).
Proof.
  intros Hargs Hsocket Hconnect Hencode Hlong.
  assert (Hrequest : Client.construct_request filename = Raise OverflowError).
  { unfold Client.construct_request.
    rewrite magic_bytes, Hencode. cbn [and_then]. unfold to_bytes.
    replace (len payload <? 256 ^ N.of_nat 2) with false; [reflexivity|].
    symmetry. apply N.ltb_ge. exact Hlong. }
  split; [exact Hrequest|].
  unfold Client.main. unfold bind at 1. rewrite Hargs.
  unfold Client.create_socket. rewrite Hsocket.
  unfold bind at 1. unfold ret at 1.
  unfold with_socket, Client.connect_to_server.
  rewrite Hconnect, Hrequest.
  unfold bind, emit, ret, lift. cbn [sock_in sock_send_ok files write_faults trace].
  rewrite <- app_assoc. reflexivity.
Qed.

Lemma overlong_filename_raises_witness :
  Client.construct_request overlong_name = Raise OverflowError.
Proof.
  apply (overlong_filename_raises obliging
           [[99]; [104]; [53; 48; 48; 48]; overlong_name] (fresh [])
           [104] 5000%Z overlong_name (map byte_of_N overlong_name)).
  - reflexivity.
  - reflexivity.
  - reflexivity.
  - apply encode_ascii. unfold overlong_name.
    induction (N.to_nat 65536); constructor; [reflexivity | assumption].
  - unfold len, overlong_name. rewrite length_map, repeat_length, N2Nat.id.
    reflexivity.
Defined.

(** ** Command lines *)

(** When the server's [arguemnt_check] returns, it has printed nothing, there
    was exactly one argument, and the port it returns is that argument's
    value, between 1024 and 64000. *)
Theorem server_port_is_checked (E : env) (argv : list str) (st st' : state)
    (port : Z) :
  Server.arguemnt_check E argv st = (Ret port, st') ->
  st' = st /\
  length argv = 2%nat /\
  str_isdigit E (argv !!! 1%nat) = true /\
  str_to_int E (argv !!! 1%nat) = Some port /\
  (MIN_PORT <= port <= MAX_PORT)%Z.
Proof.
  unfold Server.arguemnt_check, when, bind, ret, exit, raise, print, emit.
  destruct (length argv =? 2)%nat eqn:Hargc; [|discriminate]. cbn [negb].
  destruct (str_isdigit E _) eqn:Hdigit; [|discriminate].
  destruct (str_to_int E _) as [p|] eqn:Hint; [|discriminate].
  destruct ((p <? MIN_PORT) || (MAX_PORT <? p))%Z eqn:Hrange; [discriminate|].
  intros [= <- <-].
  apply orb_false_elim in Hrange as [Hlo Hhi].
  apply Z.ltb_ge in Hlo, Hhi. apply Nat.eqb_eq in Hargc.
  repeat apply conj; auto.
Qed.

Lemma server_port_is_checked_witness :
  length [[115]; [53; 48; 48; 48]] = 2%nat /\ (MIN_PORT <= 5000 <= MAX_PORT)%Z.
Proof.
  destruct (server_port_is_checked obliging [[115]; [53; 48; 48; 48]]
              (fresh []) (fresh []) 5000%Z eq_refl)
    as (_ & Hargc & _ & _ & Hrange).
  split; [exact Hargc | exact Hrange].
Defined.

(** When the client's [arguemnt_check] returns, it has printed nothing, there
    were exactly three arguments, the host resolved, the port is between 1024
    and 64000, the filename is the third argument, and no file of that name
    opens for reading. *)
Theorem client_arguments_are_checked (E : env) (argv : list str) (st st' : state)
    (ip : str) (port : Z) (filename : str) :
  Client.arguemnt_check E argv st = (Ret (ip, port, filename), st') ->
  st' = st /\
  length argv = 4%nat /\
  getaddrinfo E (argv !!! 1%nat) = Some ip /\
  str_to_int E (argv !!! 2%nat) = Some port /\
  (MIN_PORT <= port <= MAX_PORT)%Z /\
  filename = argv !!! 3%nat /\
  (is_Some (files st !! filename) -> readable E filename = false).
Proof.
  unfold Client.arguemnt_check, when, bind, ret, exit, raise, print, emit,
    isfile, open_read.
  destruct (length argv =? 4)%nat eqn:Hargc; [|discriminate]. cbn [negb].
  destruct (getaddrinfo E _) as [ip'|] eqn:Hip; [|discriminate].
  destruct (str_isdigit E _); [|discriminate].
  destruct (str_to_int E _) as [p|] eqn:Hint; [|discriminate].
  destruct ((p <? MIN_PORT) || (MAX_PORT <? p))%Z eqn:Hrange; [discriminate|].
  apply orb_false_elim in Hrange as [Hlo Hhi].
  apply Z.ltb_ge in Hlo, Hhi. apply Nat.eqb_eq in Hargc.
  destruct (files st !! (argv !!! 3%nat)) as [contents|] eqn:Hfile.
  - rewrite bool_decide_eq_true_2 by (eexists; reflexivity). rewrite Hfile.
    destruct (readable E (argv !!! 3%nat)) eqn:Hreadable; [discriminate|].
    intros [= <- <- <- <-]. repeat apply conj; auto.
  - rewrite bool_decide_eq_false_2 by (intros [? [=]]).
    intros [= <- <- <- <-]. repeat apply conj; auto.
    rewrite Hfile. intros [? [=]].
Qed.

Lemma client_arguments_are_checked_witness :
  length a_command_line = 4%nat /\ (MIN_PORT <= 5000 <= MAX_PORT)%Z.
Proof.
  destruct (client_arguments_are_checked unreadable a_command_line
              beside_f beside_f [104] 5000%Z [102] eq_refl)
    as (_ & Hargc & _ & _ & Hrange & _).
  split; [exact Hargc | exact Hrange].
Defined.

(** ** Starting up *)

(** Once its argument is accepted, the server either gets its listening
    socket and runs the accept loop, or, when creating, binding or listening
    fails, ends at once (exit status 1, or an uncaught error of the host
    name lookup) without ever calling [accept]. *)
Theorem server_startup (E : env) (argv : list str)
    (arrivals : list (option connection)) (st : state) (port : Z) :
  Server.arguemnt_check E argv st = (Ret port, st) ->
  (socket_ok E && hostname_ok E && bind_ok E && listen_ok E = true ->
   Server.main E argv arrivals st = with_socket (Server.serve E arrivals) st) /\
  (socket_ok E && hostname_ok E && bind_ok E && listen_ok E = false ->
   exists r st' evs,
     Server.main E argv arrivals st = (r, st') /\
     (r = Exit 1 \/ r = Raise OSError) /\
     trace st' = trace st ++ evs /\
     ~ In Accept evs).
Proof.
  intros Hargs.
  assert (Hmain : Server.main E argv arrivals st =
            (Server.create_socket E;;
             with_socket (Server.bind_socket E;; Server.listen_on_socket E;;
                          Server.serve E arrivals)) st).
  { unfold Server.main. unfold bind at 1. rewrite Hargs. reflexivity. }
  rewrite Hmain. clear Hmain.
  unfold Server.create_socket, Server.bind_socket, Server.listen_on_socket.
  split.
  - intros Hok. apply andb_prop in Hok as [Hok Hlisten].
    apply andb_prop in Hok as [Hok Hbind]. apply andb_prop in Hok as [Hsocket Hhost].
    rewrite Hsocket, Hhost, Hbind, Hlisten. reflexivity.
  - intros Hfail.
    destruct (socket_ok E).
    + destruct (hostname_ok E); [destruct (bind_ok E); [destruct (listen_ok E)|]|];
        try discriminate;
        (eexists _, _, [_; _] + eexists _, _, [_]);
        (split; [reflexivity|]); cbn [fst trace];
        (repeat apply conj;
         [(left; reflexivity) || (right; reflexivity)
         | rewrite <- ?app_assoc; reflexivity
         | cbn; intuition discriminate]).
    + eexists _, _, [_]. split; [reflexivity|].
      repeat apply conj; [left; reflexivity | reflexivity | cbn; intuition discriminate].
Qed.

Lemma server_startup_witness :
  Server.main obliging [[115]; [53; 48; 48; 48]] [None] (fresh []) =
    with_socket (Server.serve obliging [None]) (fresh []).
Proof.
  apply (server_startup obliging [[115]; [53; 48; 48; 48]] [None] (fresh []) 5000%Z).
  - reflexivity.
  - reflexivity.
Defined.

(** The client's ways of failing before it has a response to read.  When
    the socket cannot be created or the connection is refused it prints the
    reason and exits with status 1; when sending the request fails, nothing
    catches the error and the run ends with it.  In all three cases nothing
    is read from the socket and no file is touched. *)
Theorem client_setup_failures (E : env) (argv : list str) (st : state)
    (ip : str) (port : Z) (filename : str) :
  Client.arguemnt_check E argv st = (Ret (ip, port, filename), st) ->
  (socket_ok E = false ->
   Client.main E argv st =
     (Exit 1, State (sock_in st) (sock_send_ok st) (files st) (write_faults st)
                    (trace st ++ [Print SocketCreationFailed]))) /\
  (socket_ok E = true -> connect_ok E = false ->
   Client.main E argv st =
     (Exit 1, State (sock_in st) (sock_send_ok st) (files st) (write_faults st)
                    (trace st ++ [Connect; Print ConnectFailed; CloseSocket]))) /\
  (forall request,
     socket_ok E = true -> connect_ok E = true ->
     Client.construct_request filename = Ret request ->
     sock_send_ok st = false ->
     Client.main E argv st =
       (Raise OSError,
        State (sock_in st) (sock_send_ok st) (files st) (write_faults st)
              (trace st ++ [Connect; SendAll request; CloseSocket]))).
Proof.
  intros Hargs.
  assert (Hmain : Client.main E argv st =
            (Client.create_socket E;;
             with_socket
               (Client.connect_to_server E;;
                request <- lift (Client.construct_request filename);;
                sent <- sock_sendall request;;
                when (negb sent) (raise OSError);;
                header <- Client.get_header;;
                Client.validate_header header;;
                Client.check_status_code header;;
                total_bytes <- Client.save_file E filename header;;
                Client.print_info filename total_bytes)) st).
  { unfold Client.main. unfold bind at 1. rewrite Hargs. reflexivity. }
  rewrite Hmain. clear Hmain.
  unfold Client.create_socket, Client.connect_to_server, with_socket.
  repeat apply conj.
  - intros ->. reflexivity.
  - intros -> ->. unfold bind, emit, print, emit, exit. cbn.
    rewrite <- !app_assoc. reflexivity.
  - intros request -> -> -> Hsend.
    unfold bind, emit, ret, lift, sock_sendall. cbn. rewrite Hsend. cbn.
    rewrite <- !app_assoc. reflexivity.
Qed.

Lemma client_setup_failures_witness :
  Client.main unreachable a_command_line (fresh []) =
    (Exit 1, State [] true ∅ [] [Connect; Print ConnectFailed; CloseSocket]).
Proof.
  destruct (client_setup_failures unreachable a_command_line (fresh [])
              [104] 5000%Z [102] eq_refl) as (_ & Hrefused & _).
  apply Hrefused; reflexivity.
Defined.

(** ** The request round trip *)

Lemma ascii_filename_round_trip_witness :
  exists request,
    Client.construct_request [104; 105] = Ret request /\
    fst (decode_request (fresh [Data request])) = Ret (true, 2, Some [104; 105]).
Proof.
  apply (ascii_filename_round_trip [104; 105]).
  - repeat constructor.
  - vm_compute. split; discriminate.
Defined.
